(** * Bech32 address codec of the wallet
    (packages/shared/lib/core/utils/crypto.ts)

    A shallow embedding of the classes [Bech32] and [Bech32Helper] and the
    properties of the codec stated in the specification.

    Conventions of the embedding.
    - A JavaScript number that the code only uses as an integer is a [Z].
      The bitwise operators work on 32-bit signed integers: every operand
      goes through [toInt32] and [<<] wraps around.
    - A [Uint8Array] is a [list Z] of elements in [0, 256); a store into one
      reduces the value modulo 256 ([u8]).
    - A string is a [list ascii]: the code units 0..255 (Latin-1).  The case
      mapping [toLowerCase] is the Unicode one restricted to that range.
    - A function that can throw returns an [outcome]: [Ret v], [Throw e], or
      [Diverge] for a loop that never exits. *)

From Stdlib Require Import String.
From Stdlib Require Import ZArith List Ascii Bool Lia.
Import ListNotations.
Local Open Scope Z_scope.

(** ** JavaScript integer operators *)
Module JS.

Definition toInt32 (z : Z) : Z := (z + 2 ^ 31) mod 2 ^ 32 - 2 ^ 31.

(** [a << n] *)
Definition shl (a n : Z) : Z := toInt32 (Z.shiftl (toInt32 a) (n mod 32)).
(** [a >> n] (sign-propagating) *)
Definition sar (a n : Z) : Z := Z.shiftr (toInt32 a) (n mod 32).
(** [a & b], [a | b], [a ^ b] *)
Definition band (a b : Z) : Z := Z.land (toInt32 a) (toInt32 b).
Definition bor (a b : Z) : Z := Z.lor (toInt32 a) (toInt32 b).
Definition bxor (a b : Z) : Z := Z.lxor (toInt32 a) (toInt32 b).

(** The value a [Uint8Array] keeps of an integer stored into it. *)
Definition u8 (z : Z) : Z := z mod 256.

(** Truthiness of a number used as a condition. *)
Definition truthy (z : Z) : bool := negb (z =? 0).

(** [s.charCodeAt(i)] of the character [c] at that place. *)
Definition charCode (c : ascii) : Z := Z.of_N (N_of_ascii c).

(** [s.charAt(i)]: the one-character string at [i], the empty string out
    of range. *)
Definition charAt (s : list ascii) (i : Z) : list ascii :=
  if i <? 0 then []
  else match nth_error s (Z.to_nat i) with
       | Some c => [c]
       | None => []
       end.

(** [s.indexOf(c)] for a one-character search string: the first place of
    [c], or -1. *)
Fixpoint indexOf (s : list ascii) (c : ascii) : Z :=
  match s with
  | [] => -1
  | x :: s' =>
      if Ascii.eqb x c then 0
      else let r := indexOf s' c in if r =? -1 then -1 else r + 1
  end.

(** [s.lastIndexOf(c)] for a one-character search string: the last place
    of [c], or -1. *)
Fixpoint lastIndexOf (s : list ascii) (c : ascii) : Z :=
  match s with
  | [] => -1
  | x :: s' =>
      let r := lastIndexOf s' c in
      if r =? -1 then (if Ascii.eqb x c then 0 else -1) else r + 1
  end.

(** [String.prototype.toLowerCase] on the code units 0..255: the letters
    A-Z, and the Latin-1 capitals U+00C0..U+00DE but the sign U+00D7, move
    up by 32; every other unit is its own lower case. *)
Definition lowerChar (c : ascii) : ascii :=
  let n := charCode c in
  if ((65 <=? n) && (n <=? 90))
     || ((192 <=? n) && (n <=? 222) && negb (n =? 215))
  then ascii_of_N (Z.to_N (n + 32))
  else c.

Definition toLowerCase (s : list ascii) : list ascii := map lowerChar s.

(** [s.slice(0, n)] *)
Definition sliceTo (s : list ascii) (n : Z) : list ascii :=
  firstn (Z.to_nat n) s.

(** [a.slice(0, -k)] of a typed array, for [k > 0]. *)
Definition dropLast (k : Z) (a : list Z) : list Z :=
  firstn (Z.to_nat (Z.max (Z.of_nat (length a) - k) 0)) a.

End JS.

(** ** Outcomes *)

(** The errors of the codec.  The code throws [Error] objects that differ
    by their message; the constructors carry what the message carries. *)
Inductive error : Type :=
| MissingSeparatorError
    (* There is no separator character 1 in the data *)
| SeparatorTooEarlyError (separatorPos : Z)
    (* The separator position is .., which is too early in the string *)
| InsufficientDataError (separatorPos : Z)
    (* The separator position is .., which doesn't leave enough space for
       data *)
| InvalidCharacterError (c : list ascii)
    (* Data contains characters not in the charset .. *)
| ExcessPaddingError
    (* Excess padding *)
| NonZeroPaddingError
    (* Non-zero padding *)
| PrefixMismatchError (expected actual : list ascii)
    (* The hrp part of the address should be .., it is .. *)
| EmptyPayloadError.
    (* The data part of the address should be at least length 1, it is 0 *)

Inductive outcome (A : Type) : Type :=
| Ret (a : A)
| Throw (e : error)
| Diverge.
Arguments Ret {A} a.
Arguments Throw {A} e.
Arguments Diverge {A}.

Definition bind {A B} (m : outcome A) (k : A -> outcome B) : outcome B :=
  match m with
  | Ret a => k a
  | Throw e => Throw e
  | Diverge => Diverge
  end.

Notation "x <- m ;; k" := (bind m (fun x => k))
  (at level 61, m at next level, right associativity).

(** The object a successful decode returns. *)
Record decoded : Type := mkDecoded {
  humanReadablePart : list ascii;
  data : list Z
}.

(** The object [fromBech32] returns. *)
Record address : Type := mkAddress {
  addressType : Z;
  addressBytes : list Z
}.

(** ** The pattern of [Bech32.matches] *)

(** [matches] builds the pattern [^<hrp>1[<CHARSET>]{6,}$] and tests the
    text against it.  A letter or a digit of the prefix stands for itself in
    a pattern; any other character of the prefix is pattern syntax, which
    this embedding does not interpret. *)
Module RegExp.

Inductive atom : Type :=
| Lit (c : ascii)                            (* a character *)
| ClassAtLeast (cs : list ascii) (n : nat).  (* [cs]{n,} *)

Definition inClass (cs : list ascii) (c : ascii) : bool :=
  existsb (Ascii.eqb c) cs.

(** [[cs]{n,}] then the rest of the pattern [k]: [count] units of the class
    are read already. *)
Fixpoint repeatClass (cs : list ascii) (n : nat) (k : list ascii -> bool)
         (count : nat) (s : list ascii) : bool :=
  ((n <=? count)%nat && k s)
  || match s with
     | x :: s' => inClass cs x && repeatClass cs n k (S count) s'
     | [] => false
     end.

(** [^ atoms $] against the whole of [s]. *)
Fixpoint test (p : list atom) (s : list ascii) : bool :=
  match p with
  | [] => match s with [] => true | _ => false end
  | Lit c :: p' =>
      match s with
      | x :: s' => Ascii.eqb x c && test p' s'
      | [] => false
      end
  | ClassAtLeast cs n :: p' => repeatClass cs n (test p') O s
  end.

Definition isLiteral (c : ascii) : bool :=
  let n := JS.charCode c in
  ((48 <=? n) && (n <=? 57))
  || ((65 <=? n) && (n <=? 90))
  || ((97 <=? n) && (n <=? 122)).

(** The atoms of a pattern source made of letters and digits. *)
Definition literals (src : list ascii) : option (list atom) :=
  if forallb isLiteral src then Some (map Lit src) else None.

End RegExp.

(** ** class Bech32 *)
Module Bech32.
Import JS.

Definition CHARSET : list ascii :=
  String.list_ascii_of_string "qpzry9x8gf2tvdw0s3jn54khce6mua7l"%string.

Definition SEPARATOR : ascii := "1"%char.

Definition GENERATOR : list Z :=
  [0x3b6a57b2; 0x26508e6d; 0x1ea119fa; 0x3d4233dd; 0x2a1462b3].

(** One round of the inner loop of [polymod]. *)
Definition polymod_gen (top chk i : Z) : Z :=
  if truthy (band (sar top i) 1)
  then bxor chk (nth (Z.to_nat i) GENERATOR 0)
  else chk.

(** One round of the outer loop of [polymod]. *)
Definition polymod_step (chk v : Z) : Z :=
  let top := sar chk 25 in
  let chk := bxor (shl (band chk 0x1ffffff) 5) v in
  fold_left (polymod_gen top) [0; 1; 2; 3; 4] chk.

Definition polymod (values : list Z) : Z :=
  fold_left polymod_step values 1.

Definition humanReadablePartExpand (hrp : list ascii) : list Z :=
  map (fun c => u8 (sar (charCode c) 5)) hrp
  ++ [u8 0]
  ++ map (fun c => u8 (band (charCode c) 31)) hrp.

Definition createChecksum (hrp : list ascii) (data : list Z) : list Z :=
  let expanded := humanReadablePartExpand hrp in
  let values := expanded ++ data ++ map u8 [0; 0; 0; 0; 0; 0] in
  let mod_ := bxor (polymod values) 1 in
  map (fun i => u8 (band (sar mod_ (5 * (5 - i))) 31)) [0; 1; 2; 3; 4; 5].

Definition verifyChecksum (hrp : list ascii) (data : list Z) : bool :=
  let expanded := humanReadablePartExpand hrp in
  let values := expanded ++ data in
  polymod values =? 1.

(** The [while (bits >= toBits)] loop of [convertBits]; [fuel] bounds the
    number of rounds, [None] when it runs out. *)
Fixpoint drain (fuel : nat) (toBits maxV value bits : Z) (res : list Z)
  : option (Z * list Z) :=
  if bits >=? toBits then
    match fuel with
    | O => None
    | S fuel' =>
        let bits := bits - toBits in
        drain fuel' toBits maxV value bits
              (res ++ [band (sar value bits) maxV])
    end
  else Some (bits, res).

(** The [for] loop of [convertBits] over the elements still to read,
    from the state [(value, bits, res)]. *)
Fixpoint convertLoop (fromBits toBits maxV : Z) (data : list Z)
         (value bits : Z) (res : list Z) : option (Z * Z * list Z) :=
  match data with
  | [] => Some (value, bits, res)
  | d :: data' =>
      let value := bor (shl value fromBits) d in
      let bits := bits + fromBits in
      match drain (Z.to_nat bits) toBits maxV value bits res with
      | None => None
      | Some (bits, res) =>
          convertLoop fromBits toBits maxV data' value bits res
      end
  end.

Definition convertBits (data : list Z) (fromBits toBits : Z)
           (padding : bool) : outcome (list Z) :=
  let maxV := shl 1 toBits - 1 in
  match convertLoop fromBits toBits maxV data 0 0 [] with
  | None => Diverge
  | Some (value, bits, res) =>
      if padding then
        if bits >? 0
        then Ret (map u8 (res ++ [band (shl value (toBits - bits)) maxV]))
        else Ret (map u8 res)
      else
        if bits >=? fromBits then Throw ExcessPaddingError
        else if truthy (band (shl value (toBits - bits)) maxV)
             then Throw NonZeroPaddingError
             else Ret (map u8 res)
  end.

Definition to5Bit (bytes : list Z) : outcome (list Z) :=
  convertBits bytes 8 5 true.

Definition from5Bit (fiveBit : list Z) : outcome (list Z) :=
  convertBits fiveBit 5 8 false.

Definition encode5BitArray (hrp : list ascii) (data5Bit : list Z)
  : list ascii :=
  let checksum := createChecksum hrp data5Bit in
  let ret := hrp ++ [SEPARATOR] in
  let ret := fold_left (fun ret d => ret ++ charAt CHARSET d) data5Bit ret in
  let ret := fold_left (fun ret d => ret ++ charAt CHARSET d) checksum ret in
  ret.

Definition encode (hrp : list ascii) (data : list Z) : outcome (list ascii) :=
  data5 <- to5Bit data ;;
  Ret (encode5BitArray hrp data5).

(** The loop of [decodeTo5BitArray] that maps the characters after the
    separator through the alphabet. *)
Fixpoint decodeSymbols (chars : list ascii) (acc : list Z)
  : outcome (list Z) :=
  match chars with
  | [] => Ret acc
  | c :: chars' =>
      let d := indexOf CHARSET c in
      if d =? -1 then Throw (InvalidCharacterError [c])
      else decodeSymbols chars' (acc ++ [u8 (indexOf CHARSET c)])
  end.

Definition decodeTo5BitArray (bech : list ascii) : outcome (option decoded) :=
  let bech := toLowerCase bech in
  let separatorPos := lastIndexOf bech SEPARATOR in
  if separatorPos =? -1 then Throw MissingSeparatorError
  else if separatorPos <? 1 then Throw (SeparatorTooEarlyError separatorPos)
  else if separatorPos + 7 >? Z.of_nat (length bech)
  then Throw (InsufficientDataError separatorPos)
  else
    data <- decodeSymbols (skipn (Z.to_nat (separatorPos + 1)) bech) [] ;;
    let hrp := sliceTo bech separatorPos in
    if negb (verifyChecksum hrp data) then Ret None
    else Ret (Some (mkDecoded hrp (dropLast 6 data))).

Definition decode (bech : list ascii) : outcome (option decoded) :=
  result <- decodeTo5BitArray bech ;;
  match result with
  | Some r =>
      bytes <- from5Bit (data r) ;;
      Ret (Some (mkDecoded (humanReadablePart r) bytes))
  | None => Ret None
  end.

(** [Bech32.matches]; the text is optional in the source. [None] as a
    result: the prefix has pattern syntax in it. *)
Definition matches (hrp : list ascii) (bech32Text : option (list ascii))
  : option bool :=
  match bech32Text with
  | None => Some false
  | Some [] => Some false
  | Some text =>
      match RegExp.literals hrp with
      | Some pre =>
          Some (RegExp.test
                  (pre ++ [RegExp.Lit SEPARATOR; RegExp.ClassAtLeast CHARSET 6])
                  text)
      | None => None
      end
  end.

End Bech32.

(** ** class Bech32Helper *)
Module Bech32Helper.
Import JS.

Definition toBech32 (addressType : Z) (addressBytes : list Z)
           (hrp : list ascii) : outcome (list ascii) :=
  let addressData := u8 addressType :: addressBytes in
  Bech32.encode hrp addressData.

Definition fromBech32 (bech32Text : list ascii) (hrp : list ascii)
  : outcome (option address) :=
  decoded <- Bech32.decode bech32Text ;;
  match decoded with
  | Some d =>
      if negb (if list_eq_dec ascii_dec (humanReadablePart d) hrp
               then true else false)
      then Throw (PrefixMismatchError hrp (humanReadablePart d))
      else if Z.of_nat (length (data d)) =? 0
      then Throw EmptyPayloadError
      else Ret (Some (mkAddress (nth 0 (data d) 0) (skipn 1 (data d))))
  | None => Ret None
  end.

Definition matches (bech32Text : list ascii) (hrp : list ascii)
  : option bool :=
  Bech32.matches hrp (Some bech32Text).

End Bech32Helper.

(** ** The contents of typed arrays *)

(** A [Uint8Array] holds integers of [0, 256). *)
Definition isUint8Array (a : list Z) : Prop :=
  Forall (fun x => 0 <= x < 256) a.

(** A sequence of 5-bit symbols. *)
Definition isSymbols (a : list Z) : Prop :=
  Forall (fun x => 0 <= x < 32) a.

(** ** Notions the properties are stated with

    The checksum round without the 32-bit conversions, the symbols and
    their characters, the shapes of prefixes and of inputs, and the number a
    sequence of units spells. *)
Module Pure.
Import Bech32.

(** The feedback of the generator for the top bits [t]. *)
Definition tap (t i : Z) : Z :=
  if Z.testbit t i then nth (Z.to_nat i) GENERATOR 0 else 0.

Definition feedback (t : Z) : Z :=
  Z.lxor (Z.lxor (Z.lxor (Z.lxor (tap t 0) (tap t 1)) (tap t 2)) (tap t 3))
         (tap t 4).

(** [polymod_step] without the 32-bit conversions. *)
Definition pstep (c v : Z) : Z :=
  Z.lxor (Z.lxor (Z.shiftl (Z.land c (Z.ones 25)) 5) v)
         (feedback (Z.shiftr c 25)).

Definition pfold (c : Z) (vs : list Z) : Z := fold_left pstep vs c.

(** The symbol of [m] at bit [k], as the code's checksum loop reads it. *)
Definition symbolAt (m k : Z) : Z := Z.land (Z.shiftr m k) 31.

(** The character of the symbol [d]. *)
Definition symbolChar (d : Z) : ascii := nth (Z.to_nat d) CHARSET zero.

(** The string [s] with the character at [i] replaced by [c]. *)
Definition substitute (s : list ascii) (i : nat) (c : ascii) : list ascii :=
  firstn i s ++ c :: skipn (S i) s.

(** A human-readable part of lower-case letters, [[a-z]+]. *)
Definition isLowerLetter (c : ascii) : bool :=
  (97 <=? JS.charCode c) && (JS.charCode c <=? 122).

Definition isDigit (c : ascii) : bool :=
  (48 <=? JS.charCode c) && (JS.charCode c <=? 57).

Definition lowerLetters (hrp : list ascii) : Prop :=
  hrp <> [] /\ forallb isLowerLetter hrp = true.

Definition lowerLettersDigits (hrp : list ascii) : Prop :=
  hrp <> [] /\ forallb (fun c => isLowerLetter c || isDigit c) hrp = true.

(** The structural checks of the decoder on [bech]: its lower case is
    [pre], the last separator, and [rest]; [pre] is not empty; [rest] has
    six characters or more, all of the alphabet. *)
Definition structurallyValid (bech pre rest : list ascii) : Prop :=
  JS.toLowerCase bech = pre ++ SEPARATOR :: rest
  /\ ~ In SEPARATOR rest
  /\ pre <> []
  /\ (6 <= length rest)%nat
  /\ Forall (fun c => In c CHARSET) rest.

(** The errors of the structural checks. *)
Definition structuralError (e : error) : Prop :=
  match e with
  | MissingSeparatorError | SeparatorTooEarlyError _
  | InsufficientDataError _ | InvalidCharacterError _ => True
  | _ => False
  end.

(** The number a sequence of [w]-bit units spells, first unit highest. *)
Definition digits (w : Z) (l : list Z) : Z :=
  fold_left (fun a d => a * 2 ^ w + d) l 0.

(** What the loop of [convertBits] keeps true: [res] and the [bits] low bits
    of [value] spell the units [consumed] so far. *)
Definition converted (fromBits toBits : Z) (consumed : list Z)
           (value bits : Z) (res : list Z) : Prop :=
  Forall (fun x => 0 <= x < 2 ^ toBits) res
  /\ digits fromBits consumed
     = digits toBits res * 2 ^ bits + value mod 2 ^ bits
  /\ fromBits * Z.of_nat (length consumed)
     = toBits * Z.of_nat (length res) + bits.

End Pure.

(** A string literal as a list of code units. *)
Definition str (s : string) : list ascii := list_ascii_of_string s.

(** ** The address pattern of the free functions *)

(** [validateBech32Address] and [isValidBech32AddressAndPrefix] build the
    pattern [^<prefix>1[02-9ac-hj-np-z]{59}$].  The class is kept as the
    ranges the source writes; the prefix is read as in [RegExp]. *)
Module AddressRegExp.

Inductive atom : Type :=
| Lit (c : ascii)                                    (* a character *)
| RangesTimes (rs : list (ascii * ascii)) (n : nat). (* [r-r...]{n} *)

Definition inRanges (rs : list (ascii * ascii)) (c : ascii) : bool :=
  existsb (fun r => (JS.charCode (fst r) <=? JS.charCode c)
                    && (JS.charCode c <=? JS.charCode (snd r))) rs.

(** [[rs]{n}] then the rest of the pattern [k]. *)
Fixpoint timesThen (rs : list (ascii * ascii)) (k : list ascii -> bool)
         (n : nat) (s : list ascii) : bool :=
  match n with
  | O => k s
  | S n' =>
      match s with
      | x :: s' => inRanges rs x && timesThen rs k n' s'
      | [] => false
      end
  end.

(** [^ atoms $] against the whole of [s]. *)
Fixpoint test (p : list atom) (s : list ascii) : bool :=
  match p with
  | [] => match s with [] => true | _ => false end
  | Lit c :: p' =>
      match s with
      | x :: s' => Ascii.eqb x c && test p' s'
      | [] => false
      end
  | RangesTimes rs n :: p' => timesThen rs (test p') n s
  end.

End AddressRegExp.

(** ** The functions of crypto.ts outside the classes *)

(** What a call can throw besides the errors of the codec: the read of a
    property of undefined. *)
Inductive thrown : Type :=
| CodecError (e : error)
| TypeError.

Inductive completion (A : Type) : Type :=
| Returns (a : A)
| Throws (t : thrown)
| Loops.
Arguments Returns {A} a.
Arguments Throws {A} t.
Arguments Loops {A}.

Module Address.
Import JS.

Section Collaborators.

(** [localize(key, { values: { prefix } })] of '@core/i18n'. *)
Variable localize : list ascii -> option (list ascii) -> list ascii.

(** [convertBytesToHexString] of './convert'. *)
Variable convertBytesToHexString : list Z -> list ascii.

(** The class [02-9ac-hj-np-z]. *)
Definition ADDRESS_CLASS : list (ascii * ascii) :=
  [("0", "0"); ("2", "9"); ("a", "a"); ("c", "h"); ("j", "n");
   ("p", "z")]%char.

(** The pattern [^<prefix>1[02-9ac-hj-np-z]{59}$]; [None] when the prefix
    has pattern syntax in it. *)
Definition addressPattern (prefix : list ascii)
  : option (list AddressRegExp.atom) :=
  match RegExp.literals prefix with
  | Some _ =>
      Some (map AddressRegExp.Lit prefix
            ++ [AddressRegExp.Lit "1"%char;
                AddressRegExp.RangesTimes ADDRESS_CLASS 59])
  | None => None
  end.

(** [s.startsWith(prefix)] *)
Fixpoint startsWith (s prefix : list ascii) : bool :=
  match prefix with
  | [] => true
  | c :: prefix' =>
      match s with
      | x :: s' => Ascii.eqb x c && startsWith s' prefix'
      | [] => false
      end
  end.

(** [validateBech32Address]: the message of the first check that fails,
    undefined for an address that passes.  An error of [Bech32.decode] is
    caught. *)
Definition validateBech32Address (prefix addr : list ascii)
  : option (outcome (option (list ascii))) :=
  if (match addr with [] => true | _ => false end)
     || negb (startsWith addr prefix)
  then Some (Ret (Some (localize (str "error.send.wrongAddressPrefix")
                                 (Some prefix))))
  else
    match addressPattern prefix with
    | None => None
    | Some p =>
        if negb (AddressRegExp.test p addr)
        then Some (Ret (Some (localize (str "error.send.wrongAddressFormat")
                                       None)))
        else
          match Bech32.decode addr with
          | Diverge => Some Diverge
          | r =>
              let isValid :=
                match r with
                | Ret (Some decoded) =>
                    if list_eq_dec ascii_dec (humanReadablePart decoded) prefix
                    then true else false
                | _ => false
                end in
              if negb isValid
              then Some (Ret (Some (localize (str "error.send.invalidAddress")
                                             None)))
              else Some (Ret None)
          end
    end.

Definition isValidBech32AddressAndPrefix (address prefix : list ascii)
  : option bool :=
  match addressPattern prefix with
  | Some p => Some (AddressRegExp.test p address)
  | None => None
  end.

(** [convertBech32AddressToEd25519Address]; [Bech32.decode(..).data] on an
    undefined result is a [TypeError]. *)
Definition convertBech32AddressToEd25519Address (bech32Address : list ascii)
           (includeTypeByte : bool) : completion (list ascii) :=
  match bech32Address with
  | [] => Returns []
  | _ =>
      match Bech32.decode bech32Address with
      | Ret (Some decoded) =>
          Returns (convertBytesToHexString
                     (skipn (if includeTypeByte then 0 else 1)
                            (data decoded)))
      | Ret None => Throws TypeError
      | Throw e => Throws (CodecError e)
      | Diverge => Loops
      end
  end.

End Collaborators.

End Address.

(** The string with the characters at [i] and [i + 1] exchanged. *)
Definition transpose (s : list ascii) (i : nat) : list ascii :=
  firstn i s ++ nth (S i) s zero :: nth i s zero :: skipn (S (S i)) s.

(** * Properties *)

(** ** The integer operators on values that fit *)
Section Int32.
Import JS.

Lemma toInt32_id z : - 2 ^ 31 <= z < 2 ^ 31 -> toInt32 z = z.
Proof.
  intros H. unfold toInt32.
  rewrite Z.mod_small by lia. lia.
Qed.

Lemma toInt32_small z : 0 <= z < 2 ^ 30 -> toInt32 z = z.
Proof. intros H. apply toInt32_id. lia. Qed.

Lemma toInt32_range z : - 2 ^ 31 <= toInt32 z < 2 ^ 31.
Proof.
  unfold toInt32.
  assert (0 <= (z + 2 ^ 31) mod 2 ^ 32 < 2 ^ 32)
    by (apply Z.mod_pos_bound; lia).
  lia.
Qed.

Lemma toInt32_idem z : toInt32 (toInt32 z) = toInt32 z.
Proof. apply toInt32_id, toInt32_range. Qed.

(** [toInt32] keeps the low [k] bits, for [k <= 32]. *)
Lemma toInt32_mod z k :
  0 <= k <= 32 -> toInt32 z mod 2 ^ k = z mod 2 ^ k.
Proof.
  intros Hk. unfold toInt32.
  assert (E : 2 ^ 32 = 2 ^ k * 2 ^ (32 - k)).
  { rewrite <- Z.pow_add_r by lia. f_equal. lia. }
  assert (E1 : 2 ^ 31 = 2 ^ k * 2 ^ (31 - k) \/ k = 32).
  { destruct (Z.eq_dec k 32) as [->|]; [now right|left].
    rewrite <- Z.pow_add_r by lia. f_equal. lia. }
  assert (P : 0 < 2 ^ k) by (apply Z.pow_pos_nonneg; lia).
  assert (Q : 0 < 2 ^ (32 - k)) by (apply Z.pow_pos_nonneg; lia).
  rewrite (Z.mod_eq (z + 2 ^ 31) (2 ^ 32)) by lia.
  rewrite E at 1.
  replace (z + 2 ^ 31 - 2 ^ k * 2 ^ (32 - k) * ((z + 2 ^ 31) / 2 ^ 32)
           - 2 ^ 31)
    with (z + (- (2 ^ (32 - k) * ((z + 2 ^ 31) / 2 ^ 32))) * 2 ^ k)
    by ring.
  apply Z.mod_add. lia.
Qed.

Lemma lxor_range n a b :
  0 <= n -> 0 <= a < 2 ^ n -> 0 <= b < 2 ^ n -> 0 <= Z.lxor a b < 2 ^ n.
Proof.
  intros Hn Ha Hb.
  assert (N : 0 <= Z.lxor a b) by (apply Z.lxor_nonneg; lia).
  split; [exact N|].
  destruct (Z.eq_dec (Z.lxor a b) 0) as [E|E].
  { rewrite E. apply Z.pow_pos_nonneg; lia. }
  assert (0 < n).
  { destruct (Z.eq_dec n 0) as [->|]; [|lia].
    exfalso. apply E.
    replace a with 0 by (simpl in Ha; lia).
    replace b with 0 by (simpl in Hb; lia). reflexivity. }
  apply Z.log2_lt_pow2; [lia|].
  eapply Z.le_lt_trans; [apply Z.log2_lxor; lia|].
  apply Z.max_lub_lt.
  - destruct (Z.eq_dec a 0) as [->|]; [simpl; lia|].
    apply Z.log2_lt_pow2; lia.
  - destruct (Z.eq_dec b 0) as [->|]; [simpl; lia|].
    apply Z.log2_lt_pow2; lia.
Qed.

Lemma land_ones_range a n : 0 <= n -> 0 <= Z.land a (Z.ones n) < 2 ^ n.
Proof.
  intros Hn. rewrite Z.land_ones by lia.
  apply Z.mod_pos_bound. apply Z.pow_pos_nonneg; lia.
Qed.

Lemma shiftr_range a n k :
  0 <= k <= n -> 0 <= a < 2 ^ n -> 0 <= Z.shiftr a k < 2 ^ (n - k).
Proof.
  intros Hk Ha. rewrite Z.shiftr_div_pow2 by lia.
  assert (P : 0 < 2 ^ k) by (apply Z.pow_pos_nonneg; lia).
  split; [apply Z.div_pos; lia|].
  apply Z.div_lt_upper_bound; [lia|].
  rewrite <- Z.pow_add_r by lia.
  replace (k + (n - k)) with n by lia. lia.
Qed.

Lemma u8_id z : 0 <= z < 256 -> u8 z = z.
Proof. intros H. unfold u8. apply Z.mod_small. lia. Qed.

Lemma u8_range z : 0 <= u8 z < 256.
Proof. unfold u8. apply Z.mod_pos_bound. lia. Qed.

End Int32.

(** ** The checksum engine *)
Section Checksum.
Import JS Bech32 Pure.

(** Equalities between exclusive-ors, bit by bit. *)
Ltac xor_bits :=
  apply Z.bits_inj; intros ?n; rewrite ?Z.lxor_spec, ?Z.bits_0;
  repeat match goal with
         | |- context [Z.testbit ?a ?n] => destruct (Z.testbit a n)
         end; reflexivity.

Lemma tap_range t i : 0 <= i < 5 -> 0 <= tap t i < 2 ^ 30.
Proof.
  intros Hi. unfold tap. destruct (Z.testbit t i); [|lia].
  assert (E : i = 0 \/ i = 1 \/ i = 2 \/ i = 3 \/ i = 4) by lia.
  destruct E as [->|[->|[->|[->| ->]]]]; vm_compute; split; congruence.
Qed.

Lemma feedback_range t : 0 <= feedback t < 2 ^ 30.
Proof.
  unfold feedback.
  repeat (apply lxor_range; [lia| |apply tap_range; lia]).
  apply tap_range; lia.
Qed.

Lemma pstep_range c v : 0 <= v < 2 ^ 30 -> 0 <= pstep c v < 2 ^ 30.
Proof.
  intros Hv. unfold pstep.
  apply lxor_range; [lia| |apply feedback_range].
  apply lxor_range; [lia| |lia].
  pose proof (land_ones_range c 25 ltac:(lia)) as H.
  rewrite Z.shiftl_mul_pow2 by lia. lia.
Qed.

Lemma polymod_gen_tap t chk i :
  0 <= t < 32 -> 0 <= i < 5 -> 0 <= chk < 2 ^ 30 ->
  polymod_gen t chk i = Z.lxor chk (tap t i).
Proof.
  intros Ht Hi Hc. unfold polymod_gen, tap, truthy, band, sar, bxor.
  rewrite (toInt32_small t) by lia.
  rewrite (Z.mod_small i 32) by lia.
  rewrite (toInt32_small 1) by lia.
  assert (R : 0 <= Z.shiftr t i < 2 ^ 30).
  { pose proof (shiftr_range t 5 i ltac:(lia) ltac:(lia)) as R.
    assert (2 ^ (5 - i) <= 2 ^ 30) by (apply Z.pow_le_mono_r; lia). lia. }
  rewrite (toInt32_small (Z.shiftr t i)) by exact R.
  change 1 with (Z.ones 1) at 1. rewrite Z.land_ones by lia.
  change (2 ^ 1) with 2. rewrite <- Z.bit0_mod.
  rewrite Z.shiftr_spec by lia. simpl (0 + i).
  destruct (Z.testbit t i); simpl.
  - rewrite (toInt32_small chk) by lia.
    rewrite toInt32_small; [reflexivity|].
    pose proof (tap_range (-1) i Hi) as T. unfold tap in T.
    rewrite Z.bits_m1 in T by lia. exact T.
  - now rewrite Z.lxor_0_r.
Qed.

Lemma polymod_gen_fold t is_ : forall chk,
  0 <= t < 32 -> Forall (fun i => 0 <= i < 5) is_ -> 0 <= chk < 2 ^ 30 ->
  fold_left (polymod_gen t) is_ chk
  = fold_left (fun c i => Z.lxor c (tap t i)) is_ chk.
Proof.
  induction is_ as [|i is_ IH]; intros chk Ht Hi Hc; simpl; [reflexivity|].
  inversion Hi; subst.
  rewrite polymod_gen_tap by assumption.
  apply IH; try assumption.
  apply lxor_range; [lia|lia|apply tap_range; assumption].
Qed.

(** On a 30-bit state and a value below 2^30 the code's round is
    [pstep], and the state stays below 2^30. *)
Lemma polymod_step_pstep chk v :
  0 <= chk < 2 ^ 30 -> 0 <= v < 2 ^ 30 -> polymod_step chk v = pstep chk v.
Proof.
  intros Hc Hv. unfold polymod_step.
  assert (T : 0 <= sar chk 25 < 32).
  { unfold sar. rewrite toInt32_small by lia.
    change (25 mod 32) with 25.
    apply (shiftr_range chk 30 25); lia. }
  assert (S0 : bxor (shl (band chk 33554431) 5) v
               = Z.lxor (Z.shiftl (Z.land chk (Z.ones 25)) 5) v
               /\ 0 <= Z.lxor (Z.shiftl (Z.land chk (Z.ones 25)) 5) v
                  < 2 ^ 30).
  { pose proof (land_ones_range chk 25 ltac:(lia)) as L.
    assert (B : 0 <= Z.shiftl (Z.land chk (Z.ones 25)) 5 < 2 ^ 30)
      by (rewrite Z.shiftl_mul_pow2 by lia; lia).
    split; [|apply lxor_range; lia].
    unfold bxor, shl, band.
    rewrite (toInt32_small chk) by lia.
    rewrite (toInt32_small 33554431) by lia.
    change 33554431 with (Z.ones 25).
    rewrite (toInt32_small (Z.land _ _)) by lia.
    change (5 mod 32) with 5.
    rewrite !(toInt32_small (Z.shiftl _ _)) by lia.
    rewrite (toInt32_small v) by lia. reflexivity. }
  destruct S0 as [-> S0].
  set (x := Z.lxor (Z.shiftl (Z.land chk (Z.ones 25)) 5) v) in *.
  rewrite polymod_gen_fold; [|lia|repeat constructor; lia|lia].
  cbn [fold_left].
  unfold pstep, feedback. fold x.
  replace (Z.shiftr chk 25) with (sar chk 25).
  2:{ unfold sar. now rewrite toInt32_small by lia. }
  xor_bits.
Qed.

Lemma polymod_from_pfold vs : forall c,
  0 <= c < 2 ^ 30 -> Forall (fun v => 0 <= v < 2 ^ 30) vs ->
  fold_left polymod_step vs c = pfold c vs /\ 0 <= pfold c vs < 2 ^ 30.
Proof.
  induction vs as [|v vs IH]; intros c Hc Hvs; simpl.
  - split; [reflexivity|exact Hc].
  - inversion Hvs as [|? ? Hv Hvs']; subst.
    rewrite polymod_step_pstep by assumption.
    apply IH; [apply pstep_range; assumption|assumption].
Qed.

Lemma polymod_pfold vs :
  Forall (fun v => 0 <= v < 2 ^ 30) vs ->
  polymod vs = pfold 1 vs /\ 0 <= polymod vs < 2 ^ 30.
Proof.
  intros H. unfold polymod.
  destruct (polymod_from_pfold vs 1 ltac:(lia) H) as [E R].
  rewrite E. split; [reflexivity|exact R].
Qed.

(** *** The round is linear over exclusive-or *)

Lemma feedback_lxor t1 t2 :
  feedback (Z.lxor t1 t2) = Z.lxor (feedback t1) (feedback t2).
Proof.
  unfold feedback, tap. rewrite !Z.lxor_spec.
  destruct (Z.testbit t1 0), (Z.testbit t2 0), (Z.testbit t1 1),
    (Z.testbit t2 1), (Z.testbit t1 2), (Z.testbit t2 2), (Z.testbit t1 3),
    (Z.testbit t2 3), (Z.testbit t1 4), (Z.testbit t2 4); reflexivity.
Qed.

Lemma land_lxor_distr a b c :
  Z.land (Z.lxor a b) c = Z.lxor (Z.land a c) (Z.land b c).
Proof.
  apply Z.bits_inj; intros n.
  rewrite ?Z.lxor_spec, ?Z.land_spec, ?Z.lxor_spec.
  destruct (Z.testbit a n), (Z.testbit b n), (Z.testbit c n); reflexivity.
Qed.

Lemma pstep_lxor c1 c2 v1 v2 :
  pstep (Z.lxor c1 c2) (Z.lxor v1 v2) = Z.lxor (pstep c1 v1) (pstep c2 v2).
Proof.
  unfold pstep.
  rewrite Z.shiftr_lxor, feedback_lxor, land_lxor_distr, Z.shiftl_lxor.
  xor_bits.
Qed.

Lemma pfold_lxor vs : forall c1 c2,
  pfold (Z.lxor c1 c2) vs
  = Z.lxor (pfold c1 (map (fun _ => 0) vs)) (pfold c2 vs).
Proof.
  induction vs as [|v vs IH]; intros c1 c2; simpl; [reflexivity|].
  rewrite <- IH. f_equal.
  rewrite <- pstep_lxor. now rewrite Z.lxor_0_l.
Qed.

Lemma pfold_app c vs ws : pfold c (vs ++ ws) = pfold (pfold c vs) ws.
Proof. apply fold_left_app. Qed.

Lemma pfold_range vs : forall c,
  0 <= c < 2 ^ 30 -> Forall (fun v => 0 <= v < 2 ^ 30) vs ->
  0 <= pfold c vs < 2 ^ 30.
Proof. intros c Hc H. now apply polymod_from_pfold. Qed.

(** *** Six symbols shifted into an empty state *)

Lemma feedback_0 : feedback 0 = 0.
Proof. reflexivity. Qed.

Lemma pstep_low c v : 0 <= c < 2 ^ 25 -> pstep c v = Z.lxor (Z.shiftl c 5) v.
Proof.
  intros Hc. unfold pstep.
  rewrite Z.land_ones by lia. rewrite Z.mod_small by lia.
  rewrite (Z.shiftr_div_pow2 c 25) by lia.
  rewrite Z.div_small by lia.
  now rewrite feedback_0, Z.lxor_0_r.
Qed.

Lemma symbolAt_range m k : 0 <= symbolAt m k < 32.
Proof. apply (land_ones_range (Z.shiftr m k) 5). lia. Qed.

Lemma shift_in_symbol m k :
  0 <= k ->
  Z.lxor (Z.shiftl (Z.shiftr m (k + 5)) 5) (symbolAt m k) = Z.shiftr m k.
Proof.
  intros Hk. unfold symbolAt. change 31 with (Z.ones 5).
  apply Z.bits_inj'. intros n Hn.
  rewrite Z.lxor_spec, Z.land_spec, !Z.shiftr_spec by lia.
  destruct (Z_lt_dec n 5) as [L|L].
  - rewrite Z.shiftl_spec_low by lia.
    rewrite Z.ones_spec_low by lia.
    now rewrite andb_true_r.
  - rewrite Z.shiftl_spec by lia.
    rewrite Z.shiftr_spec by lia.
    rewrite Z.ones_spec_high by lia.
    rewrite andb_false_r, xorb_false_r. f_equal. lia.
Qed.

Lemma pfold_symbols m :
  0 <= m < 2 ^ 30 ->
  pfold 0 [symbolAt m 25; symbolAt m 20; symbolAt m 15; symbolAt m 10;
           symbolAt m 5; symbolAt m 0] = m.
Proof.
  intros Hm.
  assert (S : forall k k', k' = k + 5 -> 0 <= k <= 25 ->
              pstep (Z.shiftr m k') (symbolAt m k) = Z.shiftr m k).
  { intros k k' -> Hk. rewrite pstep_low.
    - apply shift_in_symbol. lia.
    - pose proof (shiftr_range m 30 (k + 5) ltac:(lia) Hm) as R.
      assert (2 ^ (30 - (k + 5)) <= 2 ^ 25)
        by (apply Z.pow_le_mono_r; lia).
      lia. }
  assert (Z0 : Z.shiftr m 30 = 0).
  { rewrite Z.shiftr_div_pow2 by lia. apply Z.div_small. lia. }
  unfold pfold. cbn [fold_left].
  assert (E : pstep 0 (symbolAt m 25) = Z.shiftr m 25)
    by (rewrite <- Z0 at 1; apply (S 25 30); lia).
  rewrite E, (S 20 25), (S 15 20), (S 10 15), (S 5 10), (S 0 5) by lia.
  apply Z.shiftr_0_r.
Qed.

(** *** The round is injective in the state *)

Lemma feedback_low_zero t :
  0 <= t < 32 -> Z.land (feedback t) 31 = 0 -> t = 0.
Proof.
  intros Ht H.
  assert (E : t = 0 \/ t = 1 \/ t = 2 \/ t = 3 \/ t = 4 \/ t = 5 \/ t = 6
              \/ t = 7 \/ t = 8 \/ t = 9 \/ t = 10 \/ t = 11 \/ t = 12
              \/ t = 13 \/ t = 14 \/ t = 15 \/ t = 16 \/ t = 17 \/ t = 18
              \/ t = 19 \/ t = 20 \/ t = 21 \/ t = 22 \/ t = 23 \/ t = 24
              \/ t = 25 \/ t = 26 \/ t = 27 \/ t = 28 \/ t = 29 \/ t = 30
              \/ t = 31) by lia.
  repeat (destruct E as [E|E];
          [subst t; first [reflexivity | vm_compute in H; discriminate H]|]).
  subst t; vm_compute in H; discriminate H.
Qed.

Lemma pstep_kernel d : 0 <= d < 2 ^ 30 -> pstep d 0 = 0 -> d = 0.
Proof.
  intros Hd H. unfold pstep in H.
  rewrite Z.lxor_0_r in H. apply Z.lxor_eq in H.
  pose proof (shiftr_range d 30 25 ltac:(lia) Hd) as T.
  change (2 ^ (30 - 25)) with 32 in T.
  assert (L : Z.land (Z.shiftl (Z.land d (Z.ones 25)) 5) 31 = 0).
  { change 31 with (Z.ones 5). rewrite Z.land_ones by lia.
    rewrite Z.shiftl_mul_pow2 by lia. apply Z.mod_mul. lia. }
  rewrite H in L. apply feedback_low_zero in L; [|exact T].
  rewrite L, feedback_0 in H.
  rewrite Z.shiftl_mul_pow2, Z.land_ones in H by lia.
  rewrite Z.shiftr_div_pow2 in L by lia.
  pose proof (Z.div_mod d (2 ^ 25) ltac:(lia)). lia.
Qed.

Lemma pstep_inj c1 c2 v :
  0 <= c1 < 2 ^ 30 -> 0 <= c2 < 2 ^ 30 -> pstep c1 v = pstep c2 v -> c1 = c2.
Proof.
  intros H1 H2 E.
  apply Z.lxor_eq. apply pstep_kernel; [apply lxor_range; lia|].
  replace 0 with (Z.lxor v v) at 1 by apply Z.lxor_nilpotent.
  rewrite pstep_lxor, E. apply Z.lxor_nilpotent.
Qed.

Lemma pstep_value_inj c v1 v2 : pstep c v1 = pstep c v2 -> v1 = v2.
Proof.
  unfold pstep. intros E.
  apply Z.lxor_eq.
  rewrite <- (Z.lxor_nilpotent (pstep c v1)) at 1.
  unfold pstep at 2. unfold pstep. rewrite E at 2. xor_bits.
Qed.

Lemma pfold_inj vs : forall c1 c2,
  Forall (fun v => 0 <= v < 2 ^ 30) vs ->
  0 <= c1 < 2 ^ 30 -> 0 <= c2 < 2 ^ 30 ->
  pfold c1 vs = pfold c2 vs -> c1 = c2.
Proof.
  induction vs as [|v vs IH]; intros c1 c2 Hvs H1 H2 E; simpl in E;
    [exact E|].
  inversion Hvs; subst.
  apply (pstep_inj c1 c2 v); try assumption.
  apply IH; try assumption; apply pstep_range; assumption.
Qed.

(** A single symbol changed in the sequence changes the polymod. *)
Lemma pfold_single_error c pre post v1 v2 :
  0 <= c < 2 ^ 30 ->
  Forall (fun v => 0 <= v < 2 ^ 30) pre ->
  Forall (fun v => 0 <= v < 2 ^ 30) post ->
  0 <= v1 < 2 ^ 30 -> 0 <= v2 < 2 ^ 30 -> v1 <> v2 ->
  pfold c (pre ++ v1 :: post) <> pfold c (pre ++ v2 :: post).
Proof.
  intros Hc Hpre Hpost H1 H2 N E.
  rewrite !pfold_app in E. simpl in E.
  pose proof (pfold_range pre c Hc Hpre) as R.
  apply pfold_inj in E; try assumption; try (apply pstep_range; assumption).
  apply N. eapply pstep_value_inj. exact E.
Qed.

(** *** Creating and verifying a checksum *)

Lemma below_2_30 a n :
  2 ^ n <= 2 ^ 30 -> Forall (fun x => 0 <= x < 2 ^ n) a ->
  Forall (fun x => 0 <= x < 2 ^ 30) a.
Proof. intros Hn H. eapply Forall_impl; [|exact H]. simpl. lia. Qed.

Lemma expand_isUint8Array hrp : isUint8Array (humanReadablePartExpand hrp).
Proof.
  unfold humanReadablePartExpand, isUint8Array.
  rewrite !Forall_app. repeat split.
  - apply Forall_forall. intros x Hx. apply in_map_iff in Hx.
    destruct Hx as [c [<- _]]. apply u8_range.
  - repeat constructor; apply u8_range.
  - apply Forall_forall. intros x Hx. apply in_map_iff in Hx.
    destruct Hx as [c [<- _]]. apply u8_range.
Qed.

Lemma values_range hrp data tail :
  isUint8Array data -> isUint8Array tail ->
  Forall (fun x => 0 <= x < 2 ^ 30)
         (humanReadablePartExpand hrp ++ data ++ tail).
Proof.
  intros Hd Ht. apply (below_2_30 _ 8); [simpl; lia|].
  rewrite !Forall_app. repeat split; try assumption.
  apply expand_isUint8Array.
Qed.

Lemma isSymbols_isUint8Array a : isSymbols a -> isUint8Array a.
Proof. intros H. eapply Forall_impl; [|exact H]. simpl. lia. Qed.

(** The checksum, symbol by symbol, of the value [m] the code slices. *)
Lemma createChecksum_symbols hrp data :
  isUint8Array data ->
  let m := Z.lxor (polymod (humanReadablePartExpand hrp ++ data
                            ++ [0; 0; 0; 0; 0; 0])) 1 in
  0 <= m < 2 ^ 30
  /\ createChecksum hrp data
     = [symbolAt m 25; symbolAt m 20; symbolAt m 15; symbolAt m 10;
        symbolAt m 5; symbolAt m 0].
Proof.
  intros Hd m.
  assert (Z6 : isUint8Array [0; 0; 0; 0; 0; 0]) by (repeat constructor; lia).
  destruct (polymod_pfold _ (values_range hrp data _ Hd Z6)) as [_ R].
  assert (Hm : 0 <= m < 2 ^ 30) by (apply lxor_range; lia).
  split; [exact Hm|].
  unfold createChecksum.
  change (map u8 [0; 0; 0; 0; 0; 0]) with [0; 0; 0; 0; 0; 0].
  unfold bxor. rewrite (toInt32_small (polymod _)) by exact R.
  rewrite (toInt32_small 1) by lia. fold m.
  cbn [map].
  assert (S : forall k, 0 <= k < 32 ->
              u8 (band (sar m k) 31) = symbolAt m k).
  { intros k Hk. unfold band, sar, symbolAt.
    rewrite (toInt32_small m), (Z.mod_small k 32), (toInt32_small 31) by lia.
    pose proof (shiftr_range m 30 0 ltac:(lia) Hm) as R0.
    assert (R1 : 0 <= Z.shiftr m k < 2 ^ 30).
    { rewrite Z.shiftr_div_pow2 by lia.
      assert (0 < 2 ^ k) by (apply Z.pow_pos_nonneg; lia).
      split; [apply Z.div_pos; lia|].
      apply Z.div_lt_upper_bound; [lia|]. nia. }
    rewrite (toInt32_small (Z.shiftr m k)) by exact R1.
    apply u8_id. pose proof (symbolAt_range m k) as Q.
    unfold symbolAt in Q. lia. }
  change (5 * (5 - 0)) with 25. change (5 * (5 - 1)) with 20.
  change (5 * (5 - 2)) with 15. change (5 * (5 - 3)) with 10.
  change (5 * (5 - 4)) with 5. change (5 * (5 - 5)) with 0.
  now rewrite !S by lia.
Qed.

Lemma createChecksum_isSymbols hrp data :
  isUint8Array data -> isSymbols (createChecksum hrp data).
Proof.
  intros Hd. destruct (createChecksum_symbols hrp data Hd) as [_ ->].
  repeat constructor; apply symbolAt_range.
Qed.

Lemma createChecksum_length hrp data : length (createChecksum hrp data) = 6%nat.
Proof. reflexivity. Qed.

Lemma polymod_createChecksum hrp data :
  isUint8Array data ->
  polymod (humanReadablePartExpand hrp ++ data ++ createChecksum hrp data) = 1.
Proof.
  intros Hd.
  assert (Z6 : isUint8Array [0; 0; 0; 0; 0; 0]) by (repeat constructor; lia).
  pose proof (createChecksum_isSymbols hrp data Hd) as Hs.
  apply isSymbols_isUint8Array in Hs.
  destruct (polymod_pfold _ (values_range hrp data _ Hd Hs)) as [-> _].
  destruct (createChecksum_symbols hrp data Hd) as [Hm E].
  destruct (polymod_pfold _ (values_range hrp data _ Hd Z6)) as [P _].
  rewrite P in Hm, E. clear P. cbv zeta in Hm, E.
  rewrite E. clear E.
  assert (F : forall tail,
             pfold 1 (humanReadablePartExpand hrp ++ data ++ tail)
             = pfold (pfold 1 (humanReadablePartExpand hrp ++ data)) tail)
    by (intros; rewrite app_assoc; apply pfold_app).
  rewrite !F in *. clear F.
  set (c := pfold 1 (humanReadablePartExpand hrp ++ data)) in *.
  set (m := Z.lxor (pfold c [0; 0; 0; 0; 0; 0]) 1) in *.
  rewrite <- (Z.lxor_0_r c) at 1.
  rewrite pfold_lxor. cbn [map].
  rewrite (pfold_symbols m Hm).
  subst m. xor_bits.
Qed.

End Checksum.

(** ** The bit converter *)
Section BitArithmetic.
Import JS.

Lemma pow2_pos k : 0 <= k -> 0 < 2 ^ k.
Proof. intros. apply Z.pow_pos_nonneg; lia. Qed.

Lemma pow2_split a b : 0 <= a -> 0 <= b -> 2 ^ (a + b) = 2 ^ a * 2 ^ b.
Proof. intros. apply Z.pow_add_r; lia. Qed.

Lemma shiftr_toInt32_range z b :
  0 <= b -> - 2 ^ 31 <= Z.shiftr (toInt32 z) b < 2 ^ 31.
Proof.
  intros Hb. pose proof (toInt32_range z) as R.
  pose proof (pow2_pos b Hb) as P.
  rewrite Z.shiftr_div_pow2 by lia. split.
  - apply Z.div_le_lower_bound; [lia|]. nia.
  - apply Z.div_lt_upper_bound; [lia|]. nia.
Qed.

(** [(value >> b) & maxV] reads the bits [b .. b + w) of [value]. *)
Lemma read_unit value b w :
  0 <= b -> 0 < w -> b + w <= 32 -> w <= 30 ->
  band (sar value b) (Z.ones w) = (value mod 2 ^ (b + w)) / 2 ^ b.
Proof.
  intros Hb Hw Hbw Hw'. unfold band, sar.
  rewrite (Z.mod_small b 32) by lia.
  rewrite (toInt32_id (Z.shiftr _ _)) by (apply shiftr_toInt32_range; lia).
  assert (O : 0 <= Z.ones w < 2 ^ 30).
  { rewrite Z.ones_equiv.
    assert (2 ^ w <= 2 ^ 30) by (apply Z.pow_le_mono_r; lia).
    pose proof (pow2_pos w ltac:(lia)). lia. }
  rewrite (toInt32_small (Z.ones w)) by exact O.
  rewrite Z.land_ones, Z.shiftr_div_pow2 by lia.
  rewrite <- (toInt32_mod value (b + w)) by lia.
  pose proof (pow2_pos b Hb) as Pb. pose proof (pow2_pos w ltac:(lia)) as Pw.
  rewrite pow2_split by lia.
  rewrite Z.rem_mul_r by lia.
  rewrite (Z.mul_comm (2 ^ b)), Z.div_add by lia.
  rewrite (Z.div_small (_ mod 2 ^ b)) by (apply Z.mod_pos_bound; lia).
  reflexivity.
Qed.

(** The low [b + w] bits are the unit read at [b] over the low [b] bits. *)
Lemma split_low value b w :
  0 <= b -> 0 <= w ->
  value mod 2 ^ (b + w)
  = (value mod 2 ^ (b + w)) / 2 ^ b * 2 ^ b + value mod 2 ^ b
  /\ 0 <= (value mod 2 ^ (b + w)) / 2 ^ b < 2 ^ w.
Proof.
  intros Hb Hw.
  pose proof (pow2_pos b Hb) as Pb. pose proof (pow2_pos w Hw) as Pw.
  rewrite pow2_split by lia.
  rewrite Z.rem_mul_r by lia.
  rewrite (Z.mul_comm (2 ^ b)), Z.div_add by lia.
  rewrite (Z.div_small (_ mod 2 ^ b)) by (apply Z.mod_pos_bound; lia).
  split; [ring|]. simpl. apply Z.mod_pos_bound. lia.
Qed.

Lemma lor_disjoint r n d :
  0 <= n -> 0 <= r -> 0 <= d < 2 ^ n -> Z.lor (r * 2 ^ n) d = r * 2 ^ n + d.
Proof.
  intros Hn Hr Hd.
  assert (D : Z.land (r * 2 ^ n) d = 0).
  { apply Z.bits_inj'. intros k Hk.
    rewrite Z.land_spec, Z.bits_0, <- Z.shiftl_mul_pow2 by lia.
    destruct (Z_lt_dec k n).
    - now rewrite Z.shiftl_spec_low by lia.
    - rewrite <- (Z.mod_small d (2 ^ n)) by lia.
      rewrite <- Z.land_ones, Z.land_spec, Z.ones_spec_high by lia.
      now rewrite !andb_false_r. }
  rewrite <- Z.lxor_lor by exact D.
  symmetry. apply Z.add_nocarry_lxor. exact D.
Qed.

(** [(value << n) | d] puts the unit [d] under the low bits of [value]. *)
Lemma push_unit value bits n d :
  0 <= bits -> 0 < n <= 30 -> bits + n <= 32 -> 0 <= d < 2 ^ n ->
  bor (shl value n) d mod 2 ^ (bits + n) = value mod 2 ^ bits * 2 ^ n + d.
Proof.
  intros Hb Hn Hbn Hd. unfold bor, shl.
  rewrite (Z.mod_small n 32) by lia.
  pose proof (pow2_pos bits Hb) as Pb. pose proof (pow2_pos n ltac:(lia)) as Pn.
  assert (2 ^ n <= 2 ^ 30) by (apply Z.pow_le_mono_r; lia).
  rewrite (toInt32_small d) by lia.
  rewrite <- Z.land_ones, Z.land_lor_distr_l, !Z.land_ones by lia.
  rewrite !toInt32_mod by lia.
  rewrite Z.shiftl_mul_pow2 by lia.
  rewrite pow2_split by lia.
  rewrite Z.mul_mod_distr_r by lia.
  rewrite <- pow2_split by lia.
  rewrite toInt32_mod by lia.
  rewrite (Z.mod_small d).
  2:{ rewrite pow2_split by lia. nia. }
  apply lor_disjoint; try lia.
  apply Z.mod_pos_bound. lia.
Qed.

(** [(value << (w - bits)) & maxV] is the [bits] low bits of [value],
    moved to the top of a unit of [w] bits. *)
Lemma pad_unit value bits w :
  0 <= bits < w -> w <= 30 ->
  band (shl value (w - bits)) (Z.ones w)
  = value mod 2 ^ bits * 2 ^ (w - bits).
Proof.
  intros Hb Hw. unfold band, shl.
  rewrite (Z.mod_small (w - bits) 32) by lia.
  assert (O : 0 <= Z.ones w < 2 ^ 30).
  { rewrite Z.ones_equiv.
    assert (2 ^ w <= 2 ^ 30) by (apply Z.pow_le_mono_r; lia).
    pose proof (pow2_pos w ltac:(lia)). lia. }
  rewrite (toInt32_small (Z.ones w)) by exact O.
  rewrite Z.land_ones by lia.
  rewrite !toInt32_mod by lia.
  rewrite Z.shiftl_mul_pow2 by lia.
  pose proof (pow2_pos bits ltac:(lia)).
  pose proof (pow2_pos (w - bits) ltac:(lia)).
  replace w with (bits + (w - bits)) at 2 by lia.
  rewrite pow2_split by lia.
  rewrite Z.mul_mod_distr_r by lia.
  now rewrite toInt32_mod by lia.
Qed.

Lemma maxV_ones w : 0 <= w <= 30 -> shl 1 w - 1 = Z.ones w.
Proof.
  intros Hw. unfold shl.
  rewrite (toInt32_small 1), (Z.mod_small w 32) by lia.
  rewrite Z.shiftl_1_l, Z.ones_equiv.
  assert (2 ^ w <= 2 ^ 30) by (apply Z.pow_le_mono_r; lia).
  pose proof (pow2_pos w ltac:(lia)).
  rewrite toInt32_id by lia. lia.
Qed.

Lemma quotient_unique W a b r1 r2 :
  0 <= r1 < W -> 0 <= r2 < W -> a * W + r1 = b * W + r2 -> a = b /\ r1 = r2.
Proof.
  intros H1 H2 E.
  assert (a = b).
  { destruct (Z.lt_trichotomy a b) as [L|[L|L]]; [exfalso|exact L|exfalso].
    - assert ((a + 1) * W <= b * W) by (apply Z.mul_le_mono_nonneg_r; lia).
      lia.
    - assert ((b + 1) * W <= a * W) by (apply Z.mul_le_mono_nonneg_r; lia).
      lia. }
  subst. lia.
Qed.

End BitArithmetic.

Section ConvertBits.
Import JS Bech32 Pure.

Variables fromBits toBits : Z.
Hypothesis Hfrom : 0 < fromBits.
Hypothesis Hto : 0 < toBits.
Hypothesis Hsum : fromBits + toBits <= 31.

Lemma digits_snoc w l d : digits w (l ++ [d]) = digits w l * 2 ^ w + d.
Proof. unfold digits. now rewrite fold_left_app. Qed.

Lemma drain_spec fuel : forall consumed value bits res,
  (Z.to_nat bits <= fuel)%nat -> 0 <= bits < fromBits + toBits ->
  converted fromBits toBits consumed value bits res ->
  exists bits' res',
    drain fuel toBits (Z.ones toBits) value bits res = Some (bits', res')
    /\ 0 <= bits' < toBits
    /\ converted fromBits toBits consumed value bits' res'.
Proof.
  induction fuel as [|fuel IH]; intros consumed value bits res Hf Hb Hc;
    simpl; destruct (Z.geb_spec bits toBits) as [G|G].
  - lia.
  - exists bits, res. repeat split; try lia; apply Hc.
  - destruct Hc as (Hr & Hd & Hl).
    destruct (split_low value (bits - toBits) toBits) as [E R]; try lia.
    replace (bits - toBits + toBits) with bits in E, R by lia.
    apply IH; [lia|lia|].
    rewrite read_unit by lia.
    replace (bits - toBits + toBits) with bits by lia.
    split; [|split].
    + apply Forall_app. split; [exact Hr|]. constructor; [exact R|constructor].
    + rewrite digits_snoc, Hd.
      pose proof (pow2_split (bits - toBits) toBits ltac:(lia) ltac:(lia)) as P.
      replace (bits - toBits + toBits) with bits in P by lia.
      rewrite E at 1. rewrite P. ring.
    + rewrite length_app. simpl length. lia.
  - exists bits, res. repeat split; try lia; apply Hc.
Qed.

Lemma convertLoop_spec data : forall consumed value bits res,
  Forall (fun d => 0 <= d < 2 ^ fromBits) data ->
  0 <= bits < toBits ->
  converted fromBits toBits consumed value bits res ->
  exists value' bits' res',
    convertLoop fromBits toBits (Z.ones toBits) data value bits res
    = Some (value', bits', res')
    /\ 0 <= bits' < toBits
    /\ converted fromBits toBits (consumed ++ data) value' bits' res'.
Proof.
  induction data as [|d data IH]; intros consumed value bits res Hd Hb Hc;
    simpl.
  - exists value, bits, res. rewrite app_nil_r. auto.
  - inversion Hd as [|? ? Hd0 Hd']; subst.
    destruct Hc as (Hr & Hv & Hl).
    destruct (drain_spec (Z.to_nat (bits + fromBits)) (consumed ++ [d])
                (bor (shl value fromBits) d) (bits + fromBits) res)
      as (bits1 & res1 & -> & Hb1 & Hc1); [lia|lia| |].
    + split; [exact Hr|split].
      * rewrite digits_snoc, Hv, push_unit by lia.
        rewrite pow2_split by lia. ring.
      * rewrite length_app. simpl length. lia.
    + destruct (IH (consumed ++ [d]) (bor (shl value fromBits) d) bits1 res1)
        as (value2 & bits2 & res2 & E & Hb2 & Hc2); try assumption.
      rewrite <- app_assoc in Hc2. simpl in Hc2.
      exists value2, bits2, res2. auto.
Qed.

(** The loop of [convertBits] from its initial state. *)
Lemma convertLoop_initial data :
  Forall (fun d => 0 <= d < 2 ^ fromBits) data ->
  exists value bits res,
    convertLoop fromBits toBits (shl 1 toBits - 1) data 0 0 []
    = Some (value, bits, res)
    /\ 0 <= bits < toBits
    /\ converted fromBits toBits data value bits res.
Proof.
  intros Hd. rewrite maxV_ones by lia.
  apply (convertLoop_spec data [] 0 0 [] Hd); [lia|].
  split; [constructor|]. split; [reflexivity|simpl; lia].
Qed.

End ConvertBits.

Section FiveBit.
Import JS Bech32 Pure.

Lemma map_u8_id a : isUint8Array a -> map u8 a = a.
Proof.
  induction 1 as [|x a Hx Ha IH]; simpl; [reflexivity|].
  now rewrite u8_id, IH.
Qed.

Lemma digits_nonneg w l :
  Forall (fun x => 0 <= x < 2 ^ w) l -> 0 <= digits w l.
Proof.
  induction l as [|d l IH] using rev_ind; intros H;
    [unfold digits; simpl; lia|].
  apply Forall_app in H. destruct H as [Hl Hd]. inversion Hd; subst.
  rewrite digits_snoc. specialize (IH Hl).
  assert (0 <= 2 ^ w) by (apply Z.pow_nonneg; lia). nia.
Qed.

(** Two sequences of [w]-bit units of one length that spell one number are
    equal. *)
Lemma digits_inj w l1 : forall l2,
  0 <= w ->
  Forall (fun x => 0 <= x < 2 ^ w) l1 -> Forall (fun x => 0 <= x < 2 ^ w) l2 ->
  length l1 = length l2 -> digits w l1 = digits w l2 -> l1 = l2.
Proof.
  induction l1 as [|d1 l1 IH] using rev_ind; intros l2 Hw H1 H2 Hl E.
  - destruct l2; [reflexivity|discriminate Hl].
  - destruct l2 as [|d2 l2 _] using rev_ind.
    { rewrite length_app in Hl. simpl in Hl. lia. }
    apply Forall_app in H1, H2.
    destruct H1 as [H1 D1], H2 as [H2 D2].
    inversion D1; inversion D2; subst.
    rewrite !length_app in Hl. simpl in Hl.
    rewrite !digits_snoc in E.
    pose proof (pow2_pos w Hw) as P.
    assert (E' : digits w l1 = digits w l2 /\ d1 = d2)
      by (apply (quotient_unique (2 ^ w)); assumption).
    destruct E' as [E1 ->].
    f_equal. apply IH; try assumption. lia.
Qed.

(** [to5Bit] spells the bytes again in 5-bit units, zero bits filling the
    last unit. *)
Lemma to5Bit_spec b :
  isUint8Array b ->
  exists r pad,
    to5Bit b = Ret r /\ isSymbols r /\ 0 <= pad < 5
    /\ digits 5 r = digits 8 b * 2 ^ pad
    /\ 5 * Z.of_nat (length r) = 8 * Z.of_nat (length b) + pad.
Proof.
  intros Hb. unfold to5Bit, convertBits.
  destruct (convertLoop_initial 8 5 ltac:(lia) ltac:(lia) ltac:(lia) b Hb)
    as (value & bits & res & -> & Hbits & Hr & Hd & Hl).
  rewrite maxV_ones by lia.
  destruct (Z.gtb_spec bits 0) as [G|G].
  - exists (res ++ [value mod 2 ^ bits * 2 ^ (5 - bits)]), (5 - bits).
    rewrite pad_unit by lia.
    pose proof (pow2_pos bits ltac:(lia)) as P.
    pose proof (pow2_pos (5 - bits) ltac:(lia)) as Q.
    pose proof (pow2_split bits (5 - bits) ltac:(lia) ltac:(lia)) as S.
    replace (bits + (5 - bits)) with 5 in S by lia.
    pose proof (Z.mod_pos_bound value (2 ^ bits) P) as M.
    assert (Hs : isSymbols (res ++ [value mod 2 ^ bits * 2 ^ (5 - bits)])).
    { apply Forall_app. split; [exact Hr|].
      constructor; [|constructor]. change 32 with (2 ^ 5). nia. }
    rewrite map_u8_id by (apply isSymbols_isUint8Array; exact Hs).
    repeat split; try lia; try exact Hs.
    + rewrite digits_snoc, Hd, S. ring.
    + rewrite length_app. simpl length. lia.
  - exists res, 0. assert (bits = 0) by lia. subst bits.
    rewrite map_u8_id by (apply isSymbols_isUint8Array; exact Hr).
    repeat split; try lia; try exact Hr.
    rewrite Hd. rewrite Z.mod_1_r. ring.
Qed.

(** [from5Bit] gives back the bytes of symbols that spell them over zero
    padding bits, fewer than five. *)
Lemma from5Bit_padded r b pad :
  isSymbols r -> isUint8Array b -> 0 <= pad < 5 ->
  digits 5 r = digits 8 b * 2 ^ pad ->
  5 * Z.of_nat (length r) = 8 * Z.of_nat (length b) + pad ->
  from5Bit r = Ret b.
Proof.
  intros Hr Hb Hpad Hd Hl. unfold from5Bit, convertBits.
  destruct (convertLoop_initial 5 8 ltac:(lia) ltac:(lia) ltac:(lia) r Hr)
    as (value & bits & res & -> & Hbits & Hres & Hd' & Hl').
  rewrite maxV_ones by lia.
  assert (L : length res = length b /\ bits = pad) by lia.
  destruct L as [L ->].
  pose proof (pow2_pos pad ltac:(lia)) as P.
  pose proof (Z.mod_pos_bound value (2 ^ pad) P) as M.
  rewrite Hd in Hd'.
  assert (E : digits 8 b = digits 8 res /\ 0 = value mod 2 ^ pad)
    by (apply (quotient_unique (2 ^ pad)); lia).
  destruct E as [E M0].
  destruct (Z.geb_spec pad 5) as [G|G]; [lia|].
  rewrite pad_unit, <- M0 by lia. simpl.
  rewrite map_u8_id by exact Hres.
  f_equal. symmetry. apply (digits_inj 8); try assumption; lia.
Qed.

Lemma from5Bit_to5Bit b :
  isUint8Array b ->
  exists r, to5Bit b = Ret r /\ isSymbols r /\ from5Bit r = Ret b.
Proof.
  intros Hb.
  destruct (to5Bit_spec b Hb) as (r & pad & E & Hr & Hpad & Hd & Hl).
  exists r. repeat split; try assumption.
  now apply (from5Bit_padded r b pad).
Qed.

End FiveBit.

(** ** Strings and the alphabet *)
Section Alphabet.
Import JS Bech32 Pure.

Ltac each_symbol d H :=
  let E := fresh "E" in
  assert (E : d = 0 \/ d = 1 \/ d = 2 \/ d = 3 \/ d = 4 \/ d = 5 \/ d = 6
              \/ d = 7 \/ d = 8 \/ d = 9 \/ d = 10 \/ d = 11 \/ d = 12
              \/ d = 13 \/ d = 14 \/ d = 15 \/ d = 16 \/ d = 17 \/ d = 18
              \/ d = 19 \/ d = 20 \/ d = 21 \/ d = 22 \/ d = 23 \/ d = 24
              \/ d = 25 \/ d = 26 \/ d = 27 \/ d = 28 \/ d = 29 \/ d = 30
              \/ d = 31) by lia;
  clear H;
  repeat (destruct E as [E|E]; [subst d|]); [..|subst d].

Lemma symbol_indexOf d : 0 <= d < 32 -> indexOf CHARSET (symbolChar d) = d.
Proof. intros H. each_symbol d H; reflexivity. Qed.

Lemma symbol_lower d : 0 <= d < 32 -> lowerChar (symbolChar d) = symbolChar d.
Proof. intros H. each_symbol d H; reflexivity. Qed.

Lemma symbol_not_separator d : 0 <= d < 32 -> symbolChar d <> SEPARATOR.
Proof. intros H. each_symbol d H; discriminate. Qed.

Lemma symbol_inClass d :
  0 <= d < 32 -> RegExp.inClass CHARSET (symbolChar d) = true.
Proof. intros H. each_symbol d H; reflexivity. Qed.

Lemma symbolChar_inj d1 d2 :
  0 <= d1 < 32 -> 0 <= d2 < 32 -> symbolChar d1 = symbolChar d2 -> d1 = d2.
Proof.
  intros H1 H2 E.
  rewrite <- (symbol_indexOf d1 H1), <- (symbol_indexOf d2 H2).
  now rewrite E.
Qed.

Lemma inClass_In cs c : RegExp.inClass cs c = true <-> In c cs.
Proof.
  unfold RegExp.inClass. rewrite existsb_exists. split.
  - intros (x & Hx & E). apply Ascii.eqb_eq in E. now subst.
  - intros H. exists c. split; [exact H|apply Ascii.eqb_refl].
Qed.

Lemma In_CHARSET c :
  In c CHARSET -> exists d, 0 <= d < 32 /\ c = symbolChar d.
Proof.
  intros H. destruct (In_nth _ _ zero H) as (n & Hn & E).
  exists (Z.of_nat n). change (length CHARSET) with 32%nat in Hn.
  split; [lia|]. unfold symbolChar. now rewrite Nat2Z.id.
Qed.

Lemma indexOf_absent s c : ~ In c s -> indexOf s c = -1.
Proof.
  induction s as [|x s IH]; intros H; simpl; [reflexivity|].
  destruct (Ascii.eqb_spec x c) as [->|N].
  - exfalso. apply H. now left.
  - rewrite IH by (intros I; apply H; now right). reflexivity.
Qed.

Lemma indexOf_present s c : In c s -> 0 <= indexOf s c.
Proof.
  induction s as [|x s IH]; intros H; simpl; [destruct H|].
  destruct (Ascii.eqb_spec x c) as [->|N]; [lia|].
  destruct H as [H|H]; [contradiction|].
  specialize (IH H). destruct (Z.eqb_spec (indexOf s c) (-1)); lia.
Qed.

Lemma charAt_symbol d : 0 <= d < 32 -> charAt CHARSET d = [symbolChar d].
Proof.
  intros H. unfold charAt, symbolChar.
  destruct (Z.ltb_spec d 0); [lia|].
  rewrite (nth_error_nth' CHARSET zero); [reflexivity|].
  change (length CHARSET) with 32%nat. lia.
Qed.

Lemma fold_charAt l : forall acc,
  isSymbols l ->
  fold_left (fun ret d => ret ++ charAt CHARSET d) l acc
  = acc ++ map symbolChar l.
Proof.
  induction l as [|d l IH]; intros acc H; cbn [fold_left map].
  - now rewrite app_nil_r.
  - inversion H; subst. rewrite IH by assumption.
    rewrite charAt_symbol by assumption.
    now rewrite <- app_assoc.
Qed.

(** The string [encode5BitArray] builds from symbols. *)
Lemma encode5BitArray_symbols hrp data5 :
  isSymbols data5 ->
  encode5BitArray hrp data5
  = hrp ++ SEPARATOR :: map symbolChar (data5 ++ createChecksum hrp data5).
Proof.
  intros H. unfold encode5BitArray.
  rewrite !fold_charAt; try assumption.
  - rewrite map_app, <- !app_assoc. reflexivity.
  - apply createChecksum_isSymbols, isSymbols_isUint8Array, H.
Qed.

Lemma decodeSymbols_symbols l : forall acc,
  isSymbols l -> decodeSymbols (map symbolChar l) acc = Ret (acc ++ l).
Proof.
  induction l as [|d l IH]; intros acc H; cbn [map decodeSymbols].
  - now rewrite app_nil_r.
  - inversion H; subst.
    rewrite symbol_indexOf by assumption.
    destruct (Z.eqb_spec d (-1)); [lia|].
    rewrite u8_id by lia. rewrite IH by assumption.
    now rewrite <- app_assoc.
Qed.

(** The loop over the characters after the separator: they are all of the
    alphabet and the loop gives their symbols, or it throws at one that is
    not. *)
Lemma decodeSymbols_cases chars : forall acc,
  (exists l, isSymbols l /\ chars = map symbolChar l
             /\ decodeSymbols chars acc = Ret (acc ++ l))
  \/ (exists c, In c chars /\ ~ In c CHARSET
                /\ decodeSymbols chars acc = Throw (InvalidCharacterError [c])).
Proof.
  induction chars as [|c chars IH]; intros acc; cbn [decodeSymbols].
  - left. exists []. rewrite app_nil_r. repeat split. constructor.
  - destruct (in_dec ascii_dec c CHARSET) as [I|N].
    + destruct (In_CHARSET c I) as (d & Hd & ->).
      rewrite symbol_indexOf by assumption.
      destruct (Z.eqb_spec d (-1)); [lia|].
      rewrite u8_id by lia.
      destruct (IH (acc ++ [d])) as [(l & Hl & -> & E)|(c & Hc & Nc & E)].
      * left. exists (d :: l). rewrite E, <- app_assoc.
        repeat split. now constructor.
      * right. exists c. repeat split; [now right|assumption|assumption].
    + right. exists c. rewrite indexOf_absent by assumption.
      rewrite Z.eqb_refl. repeat split; [now left|assumption].
Qed.

Lemma lastIndexOf_absent s c : ~ In c s -> lastIndexOf s c = -1.
Proof.
  induction s as [|x s IH]; intros H; simpl; [reflexivity|].
  rewrite IH by (intros I; apply H; now right). simpl.
  destruct (Ascii.eqb_spec x c) as [->|N]; [|reflexivity].
  exfalso. apply H. now left.
Qed.

Lemma lastIndexOf_last pre c post :
  ~ In c post -> lastIndexOf (pre ++ c :: post) c = Z.of_nat (length pre).
Proof.
  intros H. induction pre as [|x pre IH]; simpl.
  - rewrite lastIndexOf_absent by assumption. simpl.
    now rewrite Ascii.eqb_refl.
  - rewrite IH. destruct (Z.eqb_spec (Z.of_nat (length pre)) (-1)); lia.
Qed.

(** A string has no [c], or a last one. *)
Lemma last_occurrence s (c : ascii) :
  ~ In c s \/ exists pre post, s = pre ++ c :: post /\ ~ In c post.
Proof.
  induction s as [|x s IH]; [left; intros []|].
  destruct IH as [N|(pre & post & -> & N)].
  - destruct (ascii_dec x c) as [->|D].
    + right. exists [], s. auto.
    + left. intros [E|I]; [now apply D|now apply N].
  - right. exists (x :: pre), post. auto.
Qed.

Lemma toLowerCase_fixed s :
  Forall (fun c => lowerChar c = c) s -> toLowerCase s = s.
Proof.
  induction 1 as [|c s Hc Hs IH]; [reflexivity|].
  unfold toLowerCase in *. cbn [map]. now rewrite Hc, IH.
Qed.

End Alphabet.

(** ** Decoding *)
Section Decoding.
Import JS Bech32 Pure.

Lemma lowerChar_fixed c :
  isLowerLetter c || isDigit c = true -> lowerChar c = c.
Proof.
  unfold isLowerLetter, isDigit, lowerChar. intros H.
  set (n := charCode c) in *.
  destruct (((65 <=? n) && (n <=? 90))
            || ((192 <=? n) && (n <=? 222) && negb (n =? 215))) eqn:E;
    [|reflexivity].
  exfalso.
  repeat match goal with
         | H : _ || _ = true |- _ => apply orb_true_iff in H; destruct H
         | H : _ && _ = true |- _ => apply andb_true_iff in H; destruct H
         | H : (_ <=? _) = true |- _ => apply Z.leb_le in H
         end; lia.
Qed.

Lemma lowerLettersDigits_fixed hrp :
  forallb (fun c => isLowerLetter c || isDigit c) hrp = true ->
  Forall (fun c => lowerChar c = c) hrp.
Proof.
  intros H. apply Forall_forall. intros c Hc.
  apply lowerChar_fixed. rewrite forallb_forall in H. now apply H.
Qed.

Lemma lowerLetters_digits hrp : lowerLetters hrp -> lowerLettersDigits hrp.
Proof.
  intros [N H]. split; [exact N|].
  rewrite forallb_forall in *. intros c Hc. now rewrite (H c Hc).
Qed.

Lemma symbols_fixed l :
  isSymbols l -> Forall (fun c => lowerChar c = c) (map symbolChar l).
Proof.
  induction 1 as [|d l Hd Hl IH]; cbn [map]; constructor; [|exact IH].
  now apply symbol_lower.
Qed.

Lemma symbols_no_separator l : isSymbols l -> ~ In SEPARATOR (map symbolChar l).
Proof.
  intros H I. apply in_map_iff in I. destruct I as (d & E & Hd).
  unfold isSymbols in H. rewrite Forall_forall in H.
  now apply (symbol_not_separator d (H d Hd)).
Qed.

Lemma decodeTo5BitArray_absent bech :
  ~ In SEPARATOR (toLowerCase bech) ->
  decodeTo5BitArray bech = Throw MissingSeparatorError.
Proof.
  intros H. unfold decodeTo5BitArray. cbv zeta.
  now rewrite lastIndexOf_absent by assumption.
Qed.

(** [decodeTo5BitArray] on a string whose lower case splits at its last
    separator into [pre] and [rest]. *)
Lemma decodeTo5BitArray_split bech pre rest :
  toLowerCase bech = pre ++ SEPARATOR :: rest -> ~ In SEPARATOR rest ->
  decodeTo5BitArray bech
  = match pre with
    | [] => Throw (SeparatorTooEarlyError 0)
    | _ =>
        if Z.of_nat (length rest) <? 6
        then Throw (InsufficientDataError (Z.of_nat (length pre)))
        else
          data <- decodeSymbols rest [] ;;
          if negb (verifyChecksum pre data) then Ret None
          else Ret (Some (mkDecoded pre (dropLast 6 data)))
    end.
Proof.
  intros E N. unfold decodeTo5BitArray. cbv zeta. rewrite E.
  rewrite lastIndexOf_last by assumption.
  destruct (Z.eqb_spec (Z.of_nat (length pre)) (-1)); [lia|].
  destruct pre as [|x pre]; [reflexivity|].
  set (p := x :: pre) in *.
  assert (L : (0 < length p)%nat) by (subst p; simpl; lia).
  destruct (Z.ltb_spec (Z.of_nat (length p)) 1); [lia|].
  rewrite length_app. cbn [length].
  destruct (Z.gtb_spec (Z.of_nat (length p) + 7)
                       (Z.of_nat (length p + S (length rest))));
    destruct (Z.ltb_spec (Z.of_nat (length rest)) 6); try lia;
    [reflexivity|].
  replace (Z.to_nat (Z.of_nat (length p) + 1)) with (length p + 1)%nat by lia.
  rewrite skipn_app, skipn_all2 by lia.
  replace (length p + 1 - length p)%nat with 1%nat by lia.
  cbn [app skipn].
  unfold sliceTo. rewrite Nat2Z.id, firstn_app, Nat.sub_diag, firstn_all.
  cbn [firstn]. rewrite app_nil_r. reflexivity.
Qed.

(** A string whose lower case is a non-empty prefix, the separator, and at
    least six symbols: the decoder reaches the checksum. *)
Lemma decodeTo5BitArray_lowered bech hrp syms :
  toLowerCase bech = hrp ++ SEPARATOR :: map symbolChar syms ->
  hrp <> [] -> isSymbols syms -> (6 <= length syms)%nat ->
  decodeTo5BitArray bech
  = if verifyChecksum hrp syms
    then Ret (Some (mkDecoded hrp (dropLast 6 syms)))
    else Ret None.
Proof.
  intros E N S L.
  rewrite (decodeTo5BitArray_split _ hrp (map symbolChar syms) E)
    by now apply symbols_no_separator.
  destruct hrp; [contradiction|].
  rewrite length_map. destruct (Z.ltb_spec (Z.of_nat (length syms)) 6); [lia|].
  rewrite decodeSymbols_symbols by assumption. cbn [bind app].
  now destruct (verifyChecksum _ syms).
Qed.

Lemma decodeTo5BitArray_wellformed hrp syms :
  hrp <> [] -> Forall (fun c => lowerChar c = c) hrp ->
  isSymbols syms -> (6 <= length syms)%nat ->
  decodeTo5BitArray (hrp ++ SEPARATOR :: map symbolChar syms)
  = if verifyChecksum hrp syms
    then Ret (Some (mkDecoded hrp (dropLast 6 syms)))
    else Ret None.
Proof.
  intros N F S L. apply decodeTo5BitArray_lowered; try assumption.
  apply toLowerCase_fixed. apply Forall_app. split; [exact F|].
  constructor; [reflexivity|]. now apply symbols_fixed.
Qed.

Lemma dropLast_app a b : length b = 6%nat -> dropLast 6 (a ++ b) = a.
Proof.
  intros H. unfold dropLast. rewrite length_app, H.
  replace (Z.to_nat (Z.max (Z.of_nat (length a + 6) - 6) 0)) with (length a)
    by lia.
  rewrite firstn_app, Nat.sub_diag, firstn_all. cbn [firstn].
  apply app_nil_r.
Qed.

Lemma verifyChecksum_created hrp data :
  isUint8Array data ->
  verifyChecksum hrp (data ++ createChecksum hrp data) = true.
Proof.
  intros H. unfold verifyChecksum. cbv zeta.
  rewrite polymod_createChecksum by assumption. reflexivity.
Qed.

(** The decoder on the string [encode5BitArray] builds. *)
Lemma decodeTo5BitArray_encode5BitArray hrp data5 :
  hrp <> [] -> Forall (fun c => lowerChar c = c) hrp -> isSymbols data5 ->
  decodeTo5BitArray (encode5BitArray hrp data5)
  = Ret (Some (mkDecoded hrp data5)).
Proof.
  intros N F S.
  pose proof (createChecksum_isSymbols hrp data5
                (isSymbols_isUint8Array _ S)) as C.
  rewrite encode5BitArray_symbols by assumption.
  rewrite decodeTo5BitArray_wellformed; try assumption.
  - rewrite verifyChecksum_created by (now apply isSymbols_isUint8Array).
    now rewrite dropLast_app by apply createChecksum_length.
  - apply Forall_app. now split.
  - rewrite length_app, createChecksum_length. lia.
Qed.

(** Encoding then decoding, for a prefix that is its own lower case. *)
Lemma decode_encode hrp b :
  hrp <> [] -> Forall (fun c => lowerChar c = c) hrp -> isUint8Array b ->
  exists s, encode hrp b = Ret s /\ decode s = Ret (Some (mkDecoded hrp b)).
Proof.
  intros N F B.
  destruct (from5Bit_to5Bit b B) as (r & E & S & D).
  exists (encode5BitArray hrp r). unfold encode, decode.
  rewrite E. cbn [bind]. split; [reflexivity|].
  rewrite decodeTo5BitArray_encode5BitArray by assumption.
  cbn [bind data humanReadablePart]. now rewrite D.
Qed.

End Decoding.

(** ** The outcomes of the decoder *)
Section Outcomes.
Import JS Bech32 Pure.

Lemma map_indexOf_symbols syms :
  isSymbols syms -> map (indexOf CHARSET) (map symbolChar syms) = syms.
Proof.
  induction 1 as [|d l Hd Hl IH]; cbn [map]; [reflexivity|].
  now rewrite symbol_indexOf, IH.
Qed.

Lemma symbols_In_CHARSET syms :
  isSymbols syms -> Forall (fun c => In c CHARSET) (map symbolChar syms).
Proof.
  induction 1 as [|d l Hd Hl IH]; cbn [map]; constructor; [|exact IH].
  apply inClass_In. now apply symbol_inClass.
Qed.

Lemma In_CHARSET_symbols rest :
  Forall (fun c => In c CHARSET) rest ->
  exists syms, isSymbols syms /\ rest = map symbolChar syms.
Proof.
  induction 1 as [|c rest Hc Hr (syms & Hs & ->)].
  - exists []. split; [constructor|reflexivity].
  - destruct (In_CHARSET c Hc) as (d & Hd & ->).
    exists (d :: syms). split; [now constructor|reflexivity].
Qed.

(** What [decode] does on a string whose lower case splits at its last
    separator into [pre] and [rest]. *)
Lemma decode_split bech pre rest :
  toLowerCase bech = pre ++ SEPARATOR :: rest -> ~ In SEPARATOR rest ->
  (pre = []
   /\ decodeTo5BitArray bech = Throw (SeparatorTooEarlyError 0)
   /\ decode bech = Throw (SeparatorTooEarlyError 0))
  \/ (pre <> [] /\ (length rest < 6)%nat
      /\ decodeTo5BitArray bech
         = Throw (InsufficientDataError (Z.of_nat (length pre)))
      /\ decode bech = Throw (InsufficientDataError (Z.of_nat (length pre))))
  \/ (pre <> [] /\ (6 <= length rest)%nat
      /\ exists c, In c rest /\ ~ In c CHARSET
           /\ decodeTo5BitArray bech = Throw (InvalidCharacterError [c])
           /\ decode bech = Throw (InvalidCharacterError [c]))
  \/ (pre <> [] /\ (6 <= length rest)%nat
      /\ exists syms, isSymbols syms /\ rest = map symbolChar syms
           /\ decodeTo5BitArray bech
              = (if verifyChecksum pre syms
                 then Ret (Some (mkDecoded pre (dropLast 6 syms)))
                 else Ret None)
           /\ decode bech
              = (if verifyChecksum pre syms
                 then bytes <- from5Bit (dropLast 6 syms) ;;
                      Ret (Some (mkDecoded pre bytes))
                 else Ret None)).
Proof.
  intros E N. unfold decode.
  rewrite (decodeTo5BitArray_split bech pre rest E N).
  destruct pre as [|x pre]; [left; auto|right].
  set (p := x :: pre) in *.
  assert (P : p <> []) by discriminate.
  destruct (Z.ltb_spec (Z.of_nat (length rest)) 6) as [L|L].
  { left. repeat split; try assumption; lia. }
  right.
  destruct (decodeSymbols_cases rest [])
    as [(syms & Hs & -> & ->)|(c & Hc & Nc & ->)].
  - right. split; [exact P|]. split; [lia|].
    exists syms. cbn [bind app].
    repeat split; try assumption;
      destruct (verifyChecksum p syms); reflexivity.
  - left. split; [exact P|]. split; [lia|].
    exists c. auto.
Qed.

Lemma from5Bit_throws fiveBit e :
  from5Bit fiveBit = Throw e ->
  e = ExcessPaddingError \/ e = NonZeroPaddingError.
Proof.
  unfold from5Bit, convertBits.
  destruct (convertLoop _ _ _ _ _ _ _) as [[[value bits] res]|];
    [|discriminate].
  destruct (bits >=? 5); [intros [= <-]; now left|].
  destruct (truthy _); [intros [= <-]; now right|discriminate].
Qed.

Lemma substitute_at A x B c :
  substitute (A ++ x :: B) (length A) c = A ++ c :: B
  /\ nth (length A) (A ++ x :: B) zero = x.
Proof.
  unfold substitute. split.
  - rewrite firstn_app, Nat.sub_diag, firstn_all. cbn [firstn].
    rewrite app_nil_r. f_equal. f_equal.
    replace (S (length A)) with (length (A ++ [x]))
      by (rewrite length_app; simpl; lia).
    change (A ++ x :: B) with (A ++ [x] ++ B).
    rewrite app_assoc, skipn_app, skipn_all, Nat.sub_diag. reflexivity.
  - rewrite app_nth2, Nat.sub_diag by lia. reflexivity.
Qed.

Lemma expanded_range hrp l :
  isSymbols l ->
  Forall (fun x => 0 <= x < 2 ^ 30) (humanReadablePartExpand hrp ++ l).
Proof.
  intros Hl.
  pose proof (values_range hrp l [] (isSymbols_isUint8Array _ Hl)
                ltac:(constructor)) as Q.
  now rewrite app_nil_r in Q.
Qed.

(** One symbol changed under a checksum that verifies: it does not verify
    any more. *)
Lemma verifyChecksum_symbol_changed hrp l1 v v' l2 :
  isSymbols (l1 ++ v :: l2) -> 0 <= v' < 32 -> v' <> v ->
  verifyChecksum hrp (l1 ++ v :: l2) = true ->
  verifyChecksum hrp (l1 ++ v' :: l2) = false.
Proof.
  intros S Hv' D V.
  assert (S' : isSymbols (l1 ++ v' :: l2)).
  { apply Forall_app in S. destruct S as [S1 S2]. inversion S2; subst.
    apply Forall_app. split; [exact S1|now constructor]. }
  unfold verifyChecksum in *. cbv zeta in *.
  apply Z.eqb_eq in V. apply Z.eqb_neq. rewrite <- V.
  destruct (polymod_pfold _ (expanded_range hrp _ S)) as [-> _].
  destruct (polymod_pfold _ (expanded_range hrp _ S')) as [-> _].
  rewrite !app_assoc.
  pose proof (expanded_range hrp _ S) as R. rewrite app_assoc in R.
  apply Forall_app in R. destruct R as [R1 R2]. inversion R2; subst.
  apply pfold_single_error; try assumption; lia.
Qed.

Lemma lowerLetter_code x :
  isLowerLetter x = true -> 97 <= charCode x <= 122.
Proof.
  unfold isLowerLetter. intros H. apply andb_true_iff in H.
  destruct H as [H1 H2]. apply Z.leb_le in H1, H2. lia.
Qed.

Lemma charCode_inj x y : charCode x = charCode y -> x = y.
Proof.
  unfold charCode. intros H. apply N2Z.inj in H.
  rewrite <- (ascii_N_embedding x), <- (ascii_N_embedding y). now rewrite H.
Qed.

Lemma lowerLetter_high x :
  isLowerLetter x = true -> u8 (sar (charCode x) 5) = 3.
Proof.
  intros H. apply lowerLetter_code in H. unfold sar.
  rewrite toInt32_small by lia. change (5 mod 32) with 5.
  rewrite Z.shiftr_div_pow2 by lia. change (2 ^ 5) with 32.
  replace (charCode x / 32) with 3; [reflexivity|].
  apply (Z.div_unique _ _ _ (charCode x - 96)); lia.
Qed.

Lemma lowerLetter_low x :
  isLowerLetter x = true -> u8 (band (charCode x) 31) = charCode x - 96.
Proof.
  intros H. apply lowerLetter_code in H. unfold band.
  rewrite !toInt32_small by lia. change 31 with (Z.ones 5).
  rewrite Z.land_ones by lia. change (2 ^ 5) with 32.
  replace (charCode x mod 32) with (charCode x - 96);
    [apply u8_id; lia|].
  apply (Z.mod_unique _ _ 3); lia.
Qed.

(** One lower-case letter of the prefix changed to another under a
    checksum that verifies: it does not verify any more. *)
Lemma verifyChecksum_letter_changed h1 x x' h2 syms :
  isLowerLetter x = true -> isLowerLetter x' = true -> x' <> x ->
  isSymbols syms ->
  verifyChecksum (h1 ++ x :: h2) syms = true ->
  verifyChecksum (h1 ++ x' :: h2) syms = false.
Proof.
  intros Hx Hx' D S V.
  unfold verifyChecksum in *. cbv zeta in *.
  apply Z.eqb_eq in V. apply Z.eqb_neq. rewrite <- V.
  destruct (polymod_pfold _ (expanded_range (h1 ++ x :: h2) _ S)) as [-> _].
  destruct (polymod_pfold _ (expanded_range (h1 ++ x' :: h2) _ S))
    as [-> _].
  pose proof (expanded_range (h1 ++ x :: h2) _ S) as R.
  unfold humanReadablePartExpand in *.
  rewrite !map_app in *. cbn [map] in *.
  rewrite (lowerLetter_high x Hx), (lowerLetter_high x' Hx') in *.
  rewrite (lowerLetter_low x Hx), (lowerLetter_low x' Hx') in *.
  set (hi := map (fun c => u8 (sar (charCode c) 5)) h1
             ++ 3 :: map (fun c => u8 (sar (charCode c) 5)) h2) in *.
  set (lo1 := map (fun c => u8 (band (charCode c) 31)) h1) in *.
  set (lo2 := map (fun c => u8 (band (charCode c) 31)) h2) in *.
  assert (A : forall y, (hi ++ [u8 0] ++ lo1 ++ y :: lo2) ++ syms
                        = (hi ++ [u8 0] ++ lo1) ++ y :: (lo2 ++ syms)).
  { intros y. rewrite <- !app_assoc. cbn [app]. reflexivity. }
  rewrite !A in *.
  apply Forall_app in R. destruct R as [R1 R2]. inversion R2; subst.
  pose proof (lowerLetter_code x Hx). pose proof (lowerLetter_code x' Hx').
  apply pfold_single_error; try assumption; try lia.
  intros E. apply D. apply charCode_inj. lia.
Qed.

(** One symbol changed after the separator of a string whose checksum
    verifies: the decoder returns undefined. *)
Lemma decodeTo5BitArray_symbol_changed hrp l1 v v' l2 c :
  hrp <> [] -> Forall (fun c => lowerChar c = c) hrp ->
  isSymbols (l1 ++ v :: l2) -> (6 <= length (l1 ++ v :: l2))%nat ->
  verifyChecksum hrp (l1 ++ v :: l2) = true ->
  0 <= v' < 32 -> v' <> v -> lowerChar c = symbolChar v' ->
  decodeTo5BitArray
    ((hrp ++ SEPARATOR :: map symbolChar l1) ++ c :: map symbolChar l2)
  = Ret None.
Proof.
  intros N F S L V Hv' D C.
  pose proof (verifyChecksum_symbol_changed hrp l1 v v' l2 S Hv' D V) as V'.
  assert (S' : isSymbols (l1 ++ v' :: l2)).
  { apply Forall_app in S. destruct S as [S1 S2]. inversion S2; subst.
    apply Forall_app. split; [exact S1|now constructor]. }
  rewrite (decodeTo5BitArray_lowered _ hrp (l1 ++ v' :: l2));
    try assumption.
  - now rewrite V'.
  - unfold toLowerCase. rewrite <- app_assoc. cbn [app].
    rewrite !map_app. cbn [map]. rewrite !map_app. cbn [map].
    rewrite C.
    apply Forall_app in S. destruct S as [S1 S2]. inversion S2; subst.
    pose proof (toLowerCase_fixed _ F) as F0.
    pose proof (toLowerCase_fixed _ (symbols_fixed _ S1)) as F1.
    pose proof (toLowerCase_fixed _ (symbols_fixed l2 ltac:(assumption))) as F2.
    unfold toLowerCase in F0, F1, F2. rewrite F0, F1, F2. reflexivity.
  - rewrite length_app in *. exact L.
Qed.

(** One letter of the prefix changed to another letter, in either case, in
    a string whose checksum verifies: the decoder returns undefined. *)
Lemma decodeTo5BitArray_letter_changed h1 x h2 syms c :
  Forall (fun c => lowerChar c = c) (h1 ++ x :: h2) ->
  isLowerLetter x = true -> isLowerLetter (lowerChar c) = true ->
  lowerChar c <> x ->
  isSymbols syms -> (6 <= length syms)%nat ->
  verifyChecksum (h1 ++ x :: h2) syms = true ->
  decodeTo5BitArray
    (h1 ++ c :: (h2 ++ SEPARATOR :: map symbolChar syms))
  = Ret None.
Proof.
  intros F Hx Hc D S L V.
  pose proof (verifyChecksum_letter_changed h1 x (lowerChar c) h2 syms
                Hx Hc D S V) as V'.
  rewrite (decodeTo5BitArray_lowered _ (h1 ++ lowerChar c :: h2) syms);
    try assumption.
  - now rewrite V'.
  - unfold toLowerCase. rewrite <- app_assoc. cbn [app].
    rewrite !map_app. cbn [map]. rewrite !map_app. cbn [map].
    apply Forall_app in F. destruct F as [F1 F2]. inversion F2; subst.
    pose proof (toLowerCase_fixed _ F1) as E1.
    pose proof (toLowerCase_fixed h2 ltac:(assumption)) as E2.
    pose proof (toLowerCase_fixed _ (symbols_fixed _ S)) as E3.
    unfold toLowerCase in E1, E2, E3. rewrite E1, E2, E3. reflexivity.
  - destruct h1; discriminate.
Qed.

(** [fromBech32] after a successful decode with the expected prefix and a
    payload that is not empty. *)
Lemma fromBech32_decoded text hrp t bs :
  decode text = Ret (Some (mkDecoded hrp (t :: bs))) ->
  Bech32Helper.fromBech32 text hrp = Ret (Some (mkAddress t bs)).
Proof.
  intros D. unfold Bech32Helper.fromBech32. rewrite D.
  cbn [bind humanReadablePart data].
  destruct (list_eq_dec ascii_dec hrp hrp); [|contradiction].
  cbn [negb length].
  destruct (Z.eqb_spec (Z.of_nat (S (length bs))) 0); [lia|reflexivity].
Qed.

End Outcomes.

(** ** The pattern test *)
Section Pattern.
Import JS Bech32 Pure.

Lemma test_nil s : RegExp.test [] s = true <-> s = [].
Proof. destruct s; simpl; split; congruence. Qed.

Lemma test_literals w : forall p s,
  RegExp.test (map RegExp.Lit w ++ p) s = true
  <-> exists s', s = w ++ s' /\ RegExp.test p s' = true.
Proof.
  induction w as [|c w IH]; intros p s; cbn [map app].
  - split; [intros H; now exists s|intros (s' & -> & H); exact H].
  - cbn [RegExp.test]. destruct s as [|x s].
    + split; [discriminate|intros (s' & E & _); discriminate E].
    + rewrite andb_true_iff, IH. split.
      * intros (E & s' & -> & H). apply Ascii.eqb_eq in E. subst.
        now exists s'.
      * intros (s' & [= -> ->] & H). split; [apply Ascii.eqb_refl|].
        now exists s'.
Qed.

Lemma repeatClass_end cs n s : forall count,
  RegExp.repeatClass cs n (RegExp.test []) count s = true
  <-> (n <= count + length s)%nat /\ Forall (fun c => In c cs) s.
Proof.
  induction s as [|x s IH]; intros count; cbn [RegExp.repeatClass length].
  - rewrite orb_false_r, andb_true_iff, Nat.leb_le, test_nil.
    split; [intros [H _]; split; [lia|constructor]|].
    intros [H _]; split; [lia|reflexivity].
  - rewrite orb_true_iff, !andb_true_iff, IH, Nat.leb_le, test_nil, inClass_In.
    split.
    + intros [[_ H]|(I & L & F)]; [discriminate H|].
      split; [lia|now constructor].
    + intros [L F]. inversion F; subst. right.
      repeat split; try assumption. lia.
Qed.

Lemma literals_lowerLettersDigits hrp :
  forallb (fun c => isLowerLetter c || isDigit c) hrp = true ->
  RegExp.literals hrp = Some (map RegExp.Lit hrp).
Proof.
  intros H. unfold RegExp.literals.
  replace (forallb RegExp.isLiteral hrp) with true; [reflexivity|].
  symmetry. rewrite forallb_forall in *. intros c Hc.
  specialize (H c Hc). unfold RegExp.isLiteral, isLowerLetter, isDigit in *.
  destruct ((48 <=? charCode c) && (charCode c <=? 57));
    destruct ((97 <=? charCode c) && (charCode c <=? 122));
    try discriminate H; now rewrite ?orb_true_r.
Qed.

(** The texts the pattern of a prefix of letters and digits accepts. *)
Lemma matches_iff hrp text :
  forallb (fun c => isLowerLetter c || isDigit c) hrp = true ->
  matches hrp (Some text) = Some true
  <-> exists rest, text = hrp ++ SEPARATOR :: rest
                   /\ (6 <= length rest)%nat
                   /\ Forall (fun c => In c CHARSET) rest.
Proof.
  intros H. unfold matches.
  rewrite (literals_lowerLettersDigits hrp H).
  assert (T : RegExp.test
                (map RegExp.Lit hrp
                 ++ [RegExp.Lit SEPARATOR; RegExp.ClassAtLeast CHARSET 6]) text
              = true
              <-> exists rest, text = hrp ++ SEPARATOR :: rest
                               /\ (6 <= length rest)%nat
                               /\ Forall (fun c => In c CHARSET) rest).
  { rewrite test_literals. split.
    - intros (s' & -> & T).
      change [RegExp.Lit SEPARATOR; RegExp.ClassAtLeast CHARSET 6]
        with (map RegExp.Lit [SEPARATOR] ++ [RegExp.ClassAtLeast CHARSET 6])
        in T.
      apply test_literals in T. destruct T as (rest & -> & T).
      cbn [RegExp.test] in T. apply repeatClass_end in T.
      exists rest. cbn [app]. repeat split; [lia|apply T].
    - intros (rest & -> & L & F). exists (SEPARATOR :: rest).
      split; [reflexivity|].
      change [RegExp.Lit SEPARATOR; RegExp.ClassAtLeast CHARSET 6]
        with (map RegExp.Lit [SEPARATOR] ++ [RegExp.ClassAtLeast CHARSET 6]).
      apply test_literals. exists rest. split; [reflexivity|].
      cbn [RegExp.test]. apply repeatClass_end. split; [lia|exact F]. }
  destruct text as [|x text].
  - split; [discriminate|].
    intros (rest & E & _). destruct hrp; discriminate E.
  - rewrite <- T. split; [intros [= ->]; reflexivity|intros ->; reflexivity].
Qed.

End Pattern.

(** ** The residue of the bit converter *)
Section Residue.
Import JS Bech32 Pure.

Variables fromBits toBits : Z.
Hypothesis Hto : 0 < toBits <= 30.

Let maxV := Z.ones toBits.

Lemma band_ones_range x : 0 <= band x maxV < 2 ^ toBits.
Proof.
  unfold band, maxV.
  assert (O : 0 <= Z.ones toBits < 2 ^ 30).
  { rewrite Z.ones_equiv.
    assert (2 ^ toBits <= 2 ^ 30) by (apply Z.pow_le_mono_r; lia).
    pose proof (pow2_pos toBits ltac:(lia)). lia. }
  rewrite (toInt32_small (Z.ones toBits)) by exact O.
  apply land_ones_range. lia.
Qed.

(** The inner loop ends, with fewer than [toBits] bits left. *)
Lemma drain_total fuel : forall value bits res,
  (Z.to_nat bits <= fuel)%nat -> 0 <= bits ->
  Forall (fun x => 0 <= x < 2 ^ toBits) res ->
  exists bits' res',
    drain fuel toBits maxV value bits res = Some (bits', res')
    /\ 0 <= bits' < toBits /\ bits' = bits mod toBits
    /\ Forall (fun x => 0 <= x < 2 ^ toBits) res'.
Proof.
  induction fuel as [|fuel IH]; intros value bits res Hf Hb Hr; simpl;
    destruct (Z.geb_spec bits toBits) as [G|G].
  - lia.
  - exists bits, res. rewrite Z.mod_small by lia. auto with zarith.
  - destruct (IH value (bits - toBits)
                 (res ++ [band (sar value (bits - toBits)) maxV]))
      as (bits' & res' & E & B & M & R); [lia|lia| |].
    + apply Forall_app. split; [exact Hr|].
      constructor; [apply band_ones_range|constructor].
    + exists bits', res'. repeat split; try assumption; try lia.
      rewrite M. replace bits with (bits - toBits + 1 * toBits) at 2 by ring.
      now rewrite Z.mod_add by lia.
  - exists bits, res. rewrite Z.mod_small by lia. auto with zarith.
Qed.

(** The outer loop ends: the bits left over are the bits read, modulo
    [toBits], and every unit is at most [maxV]. *)
Lemma convertLoop_total data : forall value bits res,
  0 < fromBits -> 0 <= bits ->
  Forall (fun x => 0 <= x < 2 ^ toBits) res ->
  exists value' bits' res',
    convertLoop fromBits toBits maxV data value bits res
    = Some (value', bits', res')
    /\ (data <> [] -> 0 <= bits' < toBits)
    /\ bits' mod toBits
       = (bits + fromBits * Z.of_nat (length data)) mod toBits
    /\ (data = [] -> bits' = bits)
    /\ Forall (fun x => 0 <= x < 2 ^ toBits) res'.
Proof.
  induction data as [|d data IH]; intros value bits res Hfrom Hb Hr;
    cbn [convertLoop length].
  - exists value, bits, res. repeat split; try assumption; try congruence.
    f_equal. simpl. lia.
  - destruct (drain_total (Z.to_nat (bits + fromBits))
                (bor (shl value fromBits) d) (bits + fromBits) res)
      as (bits1 & res1 & -> & B1 & M1 & R1); [lia|lia|exact Hr|].
    destruct (IH (bor (shl value fromBits) d) bits1 res1)
      as (value2 & bits2 & res2 & E & B2 & M2 & Z2 & R2);
      [lia|lia|exact R1|].
    exists value2, bits2, res2. repeat split; try assumption; try discriminate.
    + destruct data; [rewrite Z2 by reflexivity; lia|apply B2; discriminate].
    + destruct data; [rewrite Z2 by reflexivity; lia|apply B2; discriminate].
    + rewrite M2, M1.
      rewrite Zplus_mod_idemp_l. f_equal. lia.
Qed.

End Residue.

(** ** Test vectors *)
Section Vectors.
Import JS Bech32.

(** The valid strings of the reference implementation the class is based
    on. *)
Example vector_upper_case :
  decodeTo5BitArray (str "A12UEL5L") = Ret (Some (mkDecoded (str "a") [])).
Proof. vm_compute. reflexivity. Qed.

Example vector_all_symbols :
  decodeTo5BitArray (str "abcdef1qpzry9x8gf2tvdw0s3jn54khce6mua7lmqqqxw")
  = Ret (Some (mkDecoded (str "abcdef")
                 [0; 1; 2; 3; 4; 5; 6; 7; 8; 9; 10; 11; 12; 13; 14; 15; 16;
                  17; 18; 19; 20; 21; 22; 23; 24; 25; 26; 27; 28; 29; 30;
                  31])).
Proof. vm_compute. reflexivity. Qed.

Example vector_separator_in_prefix :
  option_map humanReadablePart
    match decodeTo5BitArray
            (str "an83characterlonghumanreadablepartthatcontainsthenumber1andtheexcludedcharactersbio1tt5tgs")
    with Ret r => r | _ => None end
  = Some (str "an83characterlonghumanreadablepartthatcontainsthenumber1andtheexcludedcharactersbio").
Proof. vm_compute. reflexivity. Qed.

(** An Ed25519 address of the main network. *)
Example vector_address :
  Bech32Helper.toBech32 0
    [239; 220; 17; 46; 254; 38; 43; 48; 75; 207; 55; 155; 38; 195; 27; 173;
     2; 159; 97; 110; 227; 236; 74; 166; 52; 90; 54; 110; 76; 158; 67; 163]
    (str "iota")
  = Ret (str "iota1qrhacyfwlcnzkvzteumekfkrrwks98mpdm37cj4xx3drvmjvnep6xqgyzyx")
  /\ Bech32Helper.fromBech32
       (str "iota1qrhacyfwlcnzkvzteumekfkrrwks98mpdm37cj4xx3drvmjvnep6xqgyzyx")
       (str "iota")
     = Ret (Some (mkAddress 0
                    [239; 220; 17; 46; 254; 38; 43; 48; 75; 207; 55; 155;
                     38; 195; 27; 173; 2; 159; 97; 110; 227; 236; 74; 166;
                     52; 90; 54; 110; 76; 158; 67; 163])).
Proof. split; vm_compute; reflexivity. Qed.

(** The vectors of the specification. *)
Example vector_iota_zero :
  encode (str "iota") [0] = Ret (str "iota1qqxz3wcw")
  /\ decode (str "iota1qqxz3wcw") = Ret (Some (mkDecoded (str "iota") [0]))
  /\ decode (str "iota1qqxz3wcq") = Ret None.
Proof. repeat split; vm_compute; reflexivity. Qed.

End Vectors.

(** * The properties of the specification *)
Section Specification.
Import JS Bech32 Pure.

(** C1: round trip.  For every human-readable part of [a-z]+ and every
    sequence of bytes of length 0 to 128, [encode] returns a string, and
    [decode] of that string succeeds and returns exactly the human-readable
    part and the bytes. *)
Theorem decode_encode_roundtrip hrp b :
  lowerLetters hrp -> isUint8Array b -> (length b <= 128)%nat ->
  exists s,
    encode hrp b = Ret s
    /\ decode s = Ret (Some (mkDecoded hrp b)).
Proof.
  intros H B _.
  destruct (lowerLetters_digits hrp H) as [N F].
  apply decode_encode; try assumption.
  now apply lowerLettersDigits_fixed.
Qed.

Lemma decode_encode_roundtrip_witness :
  lowerLetters (str "iota") /\ isUint8Array [0; 255; 17]
  /\ (length [0; 255; 17] <= 128)%nat
  /\ exists s,
       encode (str "iota") [0; 255; 17] = Ret s
       /\ decode s = Ret (Some (mkDecoded (str "iota") [0; 255; 17])).
Proof.
  assert (H : lowerLetters (str "iota")) by (split; [discriminate|reflexivity]).
  assert (B : isUint8Array [0; 255; 17]) by (repeat constructor; lia).
  assert (L : (length [0; 255; 17] <= 128)%nat) by (simpl; lia).
  split; [exact H|]. split; [exact B|]. split; [exact L|].
  exact (decode_encode_roundtrip (str "iota") [0; 255; 17] H B L).
Defined.

(** C2: the checksum.  For every human-readable part and every sequence of
    5-bit symbols, [createChecksum] is the value
    polymod(expand(hrp) ++ data ++ [0,0,0,0,0,0]) XOR 1, which is below 2^30,
    cut into six 5-bit symbols, the most significant first; with those six
    symbols after the data the polymod is exactly 1, and [verifyChecksum]
    returns true. *)
Theorem createChecksum_verifies hrp data :
  isSymbols data ->
  let m := Z.lxor (polymod (humanReadablePartExpand hrp ++ data
                            ++ [0; 0; 0; 0; 0; 0])) 1 in
  0 <= m < 2 ^ 30
  /\ createChecksum hrp data
     = map (fun k => (m / 2 ^ k) mod 2 ^ 5) [25; 20; 15; 10; 5; 0]
  /\ polymod (humanReadablePartExpand hrp ++ data ++ createChecksum hrp data)
     = 1
  /\ verifyChecksum hrp (data ++ createChecksum hrp data) = true.
Proof.
  intros S m. apply isSymbols_isUint8Array in S.
  destruct (createChecksum_symbols hrp data S) as [Hm E].
  fold m in Hm, E.
  split; [exact Hm|]. split; [|split].
  - rewrite E. cbn [map]. unfold symbolAt. change 31 with (Z.ones 5).
    now rewrite !Z.land_ones, !Z.shiftr_div_pow2 by lia.
  - now apply polymod_createChecksum.
  - now apply verifyChecksum_created.
Qed.

Lemma createChecksum_verifies_witness :
  isSymbols [0; 3; 31]
  /\ createChecksum (str "iota") [0; 3; 31] = [5; 28; 7; 30; 4; 23]
  /\ verifyChecksum (str "iota") ([0; 3; 31] ++ [5; 28; 7; 30; 4; 23]) = true.
Proof.
  assert (S : isSymbols [0; 3; 31]) by (repeat constructor; lia).
  destruct (createChecksum_verifies (str "iota") [0; 3; 31] S)
    as (_ & _ & _ & V).
  split; [exact S|]. split; [reflexivity|exact V].
Defined.

(** C3: the two tiers of the decoder.  When the input passes every
    structural check (a separator, not at position 0, six characters or more
    after the last one, all of the alphabet) and the checksum does not
    verify, [decode] returns undefined and does not throw; when the input
    fails a structural check, [decode] throws one of the structural
    errors. *)
Theorem decode_two_tiers bech :
  (forall pre rest,
      structurallyValid bech pre rest ->
      verifyChecksum pre (map (indexOf CHARSET) rest) = false ->
      decode bech = Ret None)
  /\ ((forall pre rest, ~ structurallyValid bech pre rest) ->
      exists e, decode bech = Throw e /\ structuralError e).
Proof.
  split.
  - intros pre rest (E & N & P & L & F) V.
    destruct (decode_split bech pre rest E N)
      as [(-> & _)|[(_ & L' & _)|[(_ & _ & c & Hc & Nc & _)
                                 |(_ & _ & syms & Hs & -> & _ & D)]]].
    + contradiction.
    + lia.
    + rewrite Forall_forall in F. now specialize (F c Hc).
    + rewrite map_indexOf_symbols in V by assumption.
      now rewrite V in D.
  - intros NV. destruct (last_occurrence (toLowerCase bech) SEPARATOR)
      as [A|(pre & rest & E & N)].
    + exists MissingSeparatorError. unfold decode.
      rewrite decodeTo5BitArray_absent by assumption. now split.
    + destruct (decode_split bech pre rest E N)
        as [(_ & _ & D)|[(_ & _ & _ & D)|[(_ & _ & c & _ & _ & _ & D)
                                         |(P & L & syms & Hs & -> & _)]]].
      * eexists. split; [exact D|exact I].
      * eexists. split; [exact D|exact I].
      * eexists. split; [exact D|exact I].
      * exfalso. apply (NV pre (map symbolChar syms)).
        repeat split; try assumption. now apply symbols_In_CHARSET.
Qed.

Lemma decode_two_tiers_witness :
  decode (str "a12uel5q") = Ret None
  /\ exists e, decode (str "a12uel5") = Throw e /\ structuralError e.
Proof.
  destruct (decode_two_tiers (str "a12uel5q")) as [Soft _].
  destruct (decode_two_tiers (str "a12uel5")) as [_ Hard].
  split.
  - apply (Soft (str "a") (map symbolChar [10; 28; 25; 31; 20; 0]));
      [|vm_compute; reflexivity].
    assert (Y : isSymbols [10; 28; 25; 31; 20; 0]) by (repeat constructor; lia).
    split; [vm_compute; reflexivity|].
    split; [now apply symbols_no_separator|].
    split; [discriminate|]. split; [simpl; lia|].
    now apply symbols_In_CHARSET.
  - apply Hard. intros pre rest (E & N & P & L & _).
    assert (LE : length (toLowerCase (str "a12uel5"))
                 = (length pre + S (length rest))%nat).
    { rewrite E, length_app. reflexivity. }
    change (length (toLowerCase (str "a12uel5"))) with 7%nat in LE.
    destruct pre as [|x0 [|x1 pre]]; [contradiction| |simpl in LE; lia].
    simpl in LE. lia.
Defined.

(** C4: the separator checks.  [decode] takes the last "1" of the
    lower-cased input as the separator.  It throws the missing-separator
    error exactly when the input has no "1"; the separator-too-early error
    exactly when the last "1" is at position 0; the insufficient-data error
    exactly when, the prefix not being empty, fewer than six characters
    follow the last "1".  The checks come in that order and before the
    alphabet and the checksum are looked at: the three outcomes depend on the
    place of the last "1" and on the length alone.  A result carries the
    text before the last "1" as its human-readable part. *)
Theorem decode_separator_checks bech :
  (decode bech = Throw MissingSeparatorError
   <-> ~ In SEPARATOR (toLowerCase bech))
  /\ (forall pre rest,
         toLowerCase bech = pre ++ SEPARATOR :: rest -> ~ In SEPARATOR rest ->
         lastIndexOf (toLowerCase bech) SEPARATOR = Z.of_nat (length pre)
         /\ ((exists p, decode bech = Throw (SeparatorTooEarlyError p))
             <-> length pre = 0%nat)
         /\ ((exists p, decode bech = Throw (InsufficientDataError p))
             <-> length pre <> 0%nat /\ (length rest < 6)%nat)
         /\ (forall r, decode bech = Ret (Some r) ->
                       humanReadablePart r = pre)).
Proof.
  assert (F : forall fiveBit pre e,
             (bytes <- from5Bit fiveBit ;; Ret (Some (mkDecoded pre bytes)))
             = Throw e -> ~ structuralError e).
  { intros fiveBit pre e H. destruct (from5Bit fiveBit) eqn:E; try discriminate.
    cbn [bind] in H. injection H as <-.
    destruct (from5Bit_throws _ _ E) as [->| ->]; intros []. }
  split.
  - split.
    + intros D A.
      destruct (last_occurrence (toLowerCase bech) SEPARATOR)
        as [N|(pre & rest & E & N)]; [contradiction|].
      destruct (decode_split bech pre rest E N)
        as [(_ & _ & D')|[(_ & _ & _ & D')|[(_ & _ & c & _ & _ & _ & D')
                                          |(_ & _ & syms & _ & _ & _ & D')]]];
        rewrite D' in D; try discriminate D.
      destruct (verifyChecksum pre syms); [|discriminate D].
      exfalso. apply (F _ _ _ D). exact I.
    + intros A. unfold decode.
      now rewrite decodeTo5BitArray_absent by assumption.
  - intros pre rest E N.
    split; [rewrite E; now apply lastIndexOf_last|].
    destruct (decode_split bech pre rest E N)
      as [(-> & _ & D)|[(P & L & _ & D)|[(P & L & c & _ & _ & _ & D)
                                        |(P & L & syms & _ & _ & _ & D)]]];
      rewrite D; clear D;
      try (assert (length pre <> 0%nat) by (destruct pre; simpl; congruence)).
    + split; [|split].
      * split; [reflexivity|]. intros _. now exists 0.
      * split; [intros [p [=]]|]. simpl. lia.
      * discriminate.
    + split; [|split].
      * split; [intros [p [=]]|lia].
      * split; [intros _; split; assumption|]. intros _. now eexists.
      * discriminate.
    + split; [|split].
      * split; [intros [p [=]]|lia].
      * split; [intros [p [=]]|lia].
      * discriminate.
    + destruct (verifyChecksum pre syms).
      * split; [|split].
        -- split; [|lia]. intros [p D]. exfalso. apply (F _ _ _ D). exact I.
        -- split; [|lia]. intros [p D]. exfalso. apply (F _ _ _ D). exact I.
        -- intros r D. destruct (from5Bit _); try discriminate D.
           cbn [bind] in D. now injection D as <-.
      * split; [|split].
        -- split; [intros [p [=]]|lia].
        -- split; [intros [p [=]]|lia].
        -- discriminate.
Qed.

Lemma decode_separator_checks_witness :
  lastIndexOf (toLowerCase (str "a1b1!")) SEPARATOR = 3
  /\ exists p, decode (str "a1b1!") = Throw (InsufficientDataError p).
Proof.
  destruct (decode_separator_checks (str "a1b1!")) as [_ H].
  destruct (H (str "a1b") (str "!")) as (L & _ & I & _).
  - reflexivity.
  - intros [E|[]]. discriminate E.
  - split; [exact L|]. apply I. simpl. split; [discriminate|lia].
Defined.

(** C5: the padding checks of the 5-to-8 conversion.  After the loop has
    read every unit, [bits] = 5 * length mod 8 bits are left over;
    [from5Bit] throws the excess-padding error exactly when [bits] >= 5, the
    non-zero-padding error exactly when [bits] < 5 and the left-over bits,
    shifted left to the width 8 and masked, are not zero, and otherwise
    returns units that are all below 2^8. *)
Theorem from5Bit_padding_checks fiveBit :
  exists value bits res,
    convertLoop 5 8 255 fiveBit 0 0 [] = Some (value, bits, res)
    /\ bits = (5 * Z.of_nat (length fiveBit)) mod 8
    /\ (from5Bit fiveBit = Throw ExcessPaddingError <-> 5 <= bits)
    /\ (from5Bit fiveBit = Throw NonZeroPaddingError
        <-> bits < 5 /\ band (shl value (8 - bits)) 255 <> 0)
    /\ (bits < 5 -> band (shl value (8 - bits)) 255 = 0 ->
        exists out, from5Bit fiveBit = Ret out
                    /\ Forall (fun x => 0 <= x < 2 ^ 8) out).
Proof.
  destruct (convertLoop_total 5 8 ltac:(lia) fiveBit 0 0 [])
    as (value & bits & res & E & B & M & Z0 & R); [lia|lia|constructor|].
  change (Z.ones 8) with 255 in E.
  exists value, bits, res. split; [exact E|].
  assert (Hb : 0 <= bits < 8).
  { destruct fiveBit; [rewrite Z0 by reflexivity; lia|apply B; discriminate]. }
  rewrite Z.add_0_l in M.
  split; [rewrite <- M; symmetry; apply Z.mod_small; exact Hb|].
  unfold from5Bit, convertBits.
  change (shl 1 8 - 1) with 255. rewrite E.
  assert (U : map u8 res = res).
  { apply map_u8_id. eapply Forall_impl; [|exact R]. simpl. lia. }
  rewrite U.
  destruct (Z.geb_spec bits 5) as [G|G].
  - split; [split; [intros _; exact G|reflexivity]|].
    split; [split; [discriminate|intros [L _]; lia]|].
    intros L. lia.
  - unfold truthy. destruct (Z.eqb_spec (band (shl value (8 - bits)) 255) 0)
      as [Q|Q]; cbn [negb].
    + split; [split; [discriminate|lia]|].
      split; [split; [discriminate|intros [_ NZ]; contradiction]|].
      intros _ _. exists res. split; [reflexivity|exact R].
    + split; [split; [discriminate|lia]|].
      split; [split; [intros _; split; [lia|exact Q]|reflexivity]|].
      intros _ Q'. contradiction.
Qed.

Lemma from5Bit_padding_checks_witness :
  from5Bit [31; 31] = Throw NonZeroPaddingError
  /\ exists out, from5Bit [0; 0] = Ret out.
Proof.
  split.
  - destruct (from5Bit_padding_checks [31; 31])
      as (value & bits & res & E & _ & _ & NZ & _).
    apply NZ. vm_compute in E. injection E as <- <- <-.
    split; [lia|vm_compute; discriminate].
  - destruct (from5Bit_padding_checks [0; 0])
      as (value & bits & res & E & _ & _ & _ & R).
    vm_compute in E. injection E as <- <- <-.
    destruct R as (out & O & _); [lia|reflexivity|].
    now exists out.
Defined.

(** C5, the order of the two checks: on the single unit 31 five bits are
    left over and they are not zero, and the error is the excess-padding
    one, not the non-zero-padding one. *)
Lemma from5Bit_nonzero_residue_excess :
  convertLoop 5 8 255 [31] 0 0 [] = Some (31, 5, [])
  /\ band (shl 31 (8 - 5)) 255 <> 0
  /\ from5Bit [31] = Throw ExcessPaddingError
  /\ from5Bit [31] <> Throw NonZeroPaddingError.
Proof.
  split; [reflexivity|]. split; [vm_compute; discriminate|].
  split; [reflexivity|]. vm_compute. discriminate.
Qed.

(** C6: decoding a typed address.  [fromBech32] returns undefined when
    [decode] returns undefined; throws the prefix-mismatch error, naming the
    expected and the decoded prefix, when [decode] succeeds with another
    prefix; throws the empty-payload error when [decode] succeeds with the
    expected prefix and an empty payload; and otherwise returns the first
    byte of the payload as the address type and the rest as the address
    bytes. *)
Theorem fromBech32_outcomes text expectedHrp :
  (decode text = Ret None ->
   Bech32Helper.fromBech32 text expectedHrp = Ret None)
  /\ (forall d, decode text = Ret (Some d) ->
                humanReadablePart d <> expectedHrp ->
                Bech32Helper.fromBech32 text expectedHrp
                = Throw (PrefixMismatchError expectedHrp (humanReadablePart d)))
  /\ (forall d, decode text = Ret (Some d) ->
                humanReadablePart d = expectedHrp -> data d = [] ->
                Bech32Helper.fromBech32 text expectedHrp
                = Throw EmptyPayloadError)
  /\ (forall d t bs, decode text = Ret (Some d) ->
                     humanReadablePart d = expectedHrp -> data d = t :: bs ->
                     Bech32Helper.fromBech32 text expectedHrp
                     = Ret (Some (mkAddress t bs))).
Proof.
  unfold Bech32Helper.fromBech32. repeat split.
  - intros ->. reflexivity.
  - intros d -> N. cbn [bind].
    destruct (list_eq_dec ascii_dec (humanReadablePart d) expectedHrp);
      [contradiction|reflexivity].
  - intros d -> E D. cbn [bind].
    destruct (list_eq_dec ascii_dec (humanReadablePart d) expectedHrp);
      [|contradiction].
    now rewrite D.
  - intros d t bs -> E D. cbn [bind].
    destruct (list_eq_dec ascii_dec (humanReadablePart d) expectedHrp);
      [|contradiction].
    rewrite D. cbn [negb length].
    destruct (Z.eqb_spec (Z.of_nat (S (length bs))) 0); [lia|reflexivity].
Qed.

Lemma fromBech32_outcomes_witness :
  Bech32Helper.fromBech32 (str "iota1qqxz3wcw") (str "atoi")
  = Throw (PrefixMismatchError (str "atoi") (str "iota")).
Proof.
  destruct (fromBech32_outcomes (str "iota1qqxz3wcw") (str "atoi"))
    as (_ & M & _).
  apply (M (mkDecoded (str "iota") [0]));
    [vm_compute; reflexivity|discriminate].
Defined.

(** C6, the order of the two checks: on a text with an empty payload and
    another prefix the error is the prefix-mismatch one, not the
    empty-payload one. *)
Lemma fromBech32_empty_payload_other_prefix :
  decode (str "a12uel5l") = Ret (Some (mkDecoded (str "a") []))
  /\ Bech32Helper.fromBech32 (str "a12uel5l") (str "b")
     = Throw (PrefixMismatchError (str "b") (str "a"))
  /\ Bech32Helper.fromBech32 (str "a12uel5l") (str "b")
     <> Throw EmptyPayloadError.
Proof.
  split; [vm_compute; reflexivity|].
  split; [vm_compute; reflexivity|]. vm_compute. discriminate.
Qed.






(** C9: a text the pattern accepts does not make the decoder throw.  For
    every non-empty human-readable part of lower-case letters and digits
    and every text on which [matches] returns true, the text passes every
    structural check, and [decodeTo5BitArray] returns a result or
    undefined. *)
Theorem matches_decode_returns hrp text :
  lowerLettersDigits hrp -> matches hrp (Some text) = Some true ->
  (exists rest, structurallyValid text hrp rest)
  /\ (decodeTo5BitArray text = Ret None
      \/ exists d, decodeTo5BitArray text = Ret (Some d)).
Proof.
  intros [N F] M.
  apply matches_iff in M; [|exact F]. destruct M as (rest & -> & L & C).
  destruct (In_CHARSET_symbols rest C) as (syms & Hs & ->).
  rewrite length_map in L.
  pose proof (lowerLettersDigits_fixed hrp F) as Fx.
  split.
  - exists (map symbolChar syms). split; [|split; [|split; [|split]]].
    + apply toLowerCase_fixed. apply Forall_app. split; [exact Fx|].
      constructor; [reflexivity|now apply symbols_fixed].
    + now apply symbols_no_separator.
    + exact N.
    + now rewrite length_map.
    + exact C.
  - rewrite decodeTo5BitArray_wellformed by assumption.
    destruct (verifyChecksum hrp syms); [right; eexists; reflexivity|now left].
Qed.

Lemma matches_decode_returns_witness :
  matches (str "a1") (Some (str "a11qqqqqqq")) = Some true
  /\ decodeTo5BitArray (str "a11qqqqqqq") = Ret None.
Proof.
  assert (H : lowerLettersDigits (str "a1"))
    by (split; [discriminate|reflexivity]).
  assert (M : matches (str "a1") (Some (str "a11qqqqqqq")) = Some true)
    by (vm_compute; reflexivity).
  split; [exact M|].
  destruct (matches_decode_returns (str "a1") (str "a11qqqqqqq") H M)
    as [_ [R|[d R]]]; [exact R|].
  exfalso. vm_compute in R. discriminate R.
Defined.

(** C10: the address type is stored in a byte.  For every integer [t],
    [toBech32] of [t] is [toBech32] of [t mod 256], and is [encode] of the
    payload whose first byte is [t mod 256]; decoding what it returns gives
    the address type [t mod 256]. *)
Theorem toBech32_tag_mod_256 t addressBytes hrp :
  Bech32Helper.toBech32 t addressBytes hrp
  = Bech32Helper.toBech32 (t mod 256) addressBytes hrp
  /\ Bech32Helper.toBech32 t addressBytes hrp
     = encode hrp (t mod 256 :: addressBytes)
  /\ (lowerLetters hrp -> isUint8Array addressBytes ->
      exists s,
        Bech32Helper.toBech32 t addressBytes hrp = Ret s
        /\ decode s = Ret (Some (mkDecoded hrp (t mod 256 :: addressBytes)))
        /\ Bech32Helper.fromBech32 s hrp
           = Ret (Some (mkAddress (t mod 256) addressBytes))).
Proof.
  unfold Bech32Helper.toBech32, u8.
  rewrite Z.mod_mod by lia.
  split; [reflexivity|]. split; [reflexivity|].
  intros H B.
  assert (B' : isUint8Array (t mod 256 :: addressBytes)).
  { constructor; [apply Z.mod_pos_bound; lia|exact B]. }
  destruct (lowerLetters_digits hrp H) as [N F].
  destruct (decode_encode hrp (t mod 256 :: addressBytes) N
              (lowerLettersDigits_fixed hrp F) B') as (s & E & D).
  exists s. split; [exact E|]. split; [exact D|].
  now apply fromBech32_decoded.
Qed.

Lemma toBech32_tag_mod_256_witness :
  Bech32Helper.toBech32 (-1) [1; 2; 3] (str "iota")
  = Bech32Helper.toBech32 255 [1; 2; 3] (str "iota")
  /\ exists s,
       Bech32Helper.toBech32 (-1) [1; 2; 3] (str "iota") = Ret s
       /\ Bech32Helper.fromBech32 s (str "iota")
          = Ret (Some (mkAddress 255 [1; 2; 3])).
Proof.
  destruct (toBech32_tag_mod_256 (-1) [1; 2; 3] (str "iota"))
    as (E & _ & R).
  split; [exact E|].
  destruct R as (s & T & _ & A).
  - split; [discriminate|reflexivity].
  - repeat constructor; lia.
  - exists s. split; [exact T|exact A].
Defined.

End Specification.

(** * Further properties of the codec *)

(** ** The bit converter *)
Section Converter.
Import JS Bech32 Pure.

(** What [from5Bit] has checked when it returns. *)
Lemma from5Bit_returns s b :
  isSymbols s -> from5Bit s = Ret b ->
  exists pad,
    0 <= pad < 5 /\ isUint8Array b
    /\ digits 5 s = digits 8 b * 2 ^ pad
    /\ 5 * Z.of_nat (length s) = 8 * Z.of_nat (length b) + pad.
Proof.
  intros Hs. unfold from5Bit, convertBits.
  destruct (convertLoop_initial 5 8 ltac:(lia) ltac:(lia) ltac:(lia) s Hs)
    as (value & bits & res & -> & Hbits & Hres & Hd & Hl).
  rewrite maxV_ones by lia.
  destruct (Z.geb_spec bits 5) as [G|G]; [discriminate|].
  rewrite pad_unit by lia. unfold truthy.
  destruct (Z.eqb_spec (value mod 2 ^ bits * 2 ^ (8 - bits)) 0) as [Q|Q];
    [|discriminate].
  cbn [negb]. rewrite map_u8_id by exact Hres. intros [= <-].
  pose proof (pow2_pos (8 - bits) ltac:(lia)).
  assert (value mod 2 ^ bits = 0) by nia.
  exists bits. repeat split; try lia; try assumption.
Qed.

(** X1: the 8-to-5 conversion followed by the 5-to-8 conversion gives the
    bytes back, for every byte array: [to5Bit] returns symbols and
    [from5Bit] of them returns the bytes without throwing. *)
Theorem from5Bit_to5Bit_roundtrip b :
  isUint8Array b ->
  exists r, to5Bit b = Ret r /\ from5Bit r = Ret b.
Proof.
  intros Hb. destruct (from5Bit_to5Bit b Hb) as (r & E & _ & D).
  now exists r.
Qed.

Lemma from5Bit_to5Bit_roundtrip_witness :
  isUint8Array [255; 0; 129]
  /\ exists r, to5Bit [255; 0; 129] = Ret r /\ from5Bit r = Ret [255; 0; 129].
Proof.
  assert (B : isUint8Array [255; 0; 129]) by (repeat constructor; lia).
  split; [exact B|exact (from5Bit_to5Bit_roundtrip _ B)].
Defined.

(** X2: [to5Bit] never throws; for [n] bytes it returns the least number of
    symbols that hold 8n bits, each below 32, and they spell the number the
    bytes spell followed by fewer than five zero bits, however long the
    input is. *)
Theorem to5Bit_symbols b :
  isUint8Array b ->
  exists r pad,
    to5Bit b = Ret r /\ isSymbols r /\ 0 <= pad < 5
    /\ 5 * Z.of_nat (length r) = 8 * Z.of_nat (length b) + pad
    /\ digits 5 r = digits 8 b * 2 ^ pad.
Proof.
  intros Hb. destruct (to5Bit_spec b Hb) as (r & pad & E & S & P & D & L).
  exists r, pad. auto.
Qed.

Lemma to5Bit_symbols_witness :
  to5Bit [255] = Ret [31; 28].
Proof.
  destruct (to5Bit_symbols [255]) as (r & pad & E & _).
  - repeat constructor; lia.
  - rewrite E. vm_compute in E. injection E as <-. reflexivity.
Defined.

Lemma to5Bit_of_from5Bit s b :
  isSymbols s -> from5Bit s = Ret b ->
  isUint8Array b
  /\ 8 * Z.of_nat (length b) <= 5 * Z.of_nat (length s)
     < 8 * Z.of_nat (length b) + 5
  /\ to5Bit b = Ret s.
Proof.
  intros Hs E.
  destruct (from5Bit_returns s b Hs E) as (pad & Hp & Hb & Hd & Hl).
  split; [exact Hb|]. split; [lia|].
  destruct (to5Bit_spec b Hb) as (r & pad' & -> & Hr & Hp' & Hd' & Hl').
  assert (L : length s = length r /\ pad = pad') by lia.
  destruct L as [L <-].
  f_equal. symmetry. apply (digits_inj 5); try assumption; lia.
Qed.

(** X3: [from5Bit] accepts only the symbols [to5Bit] writes: when it
    returns the bytes [b] for a sequence of symbols, [b] has
    floor(5 * length / 8) bytes and [to5Bit b] is that sequence. *)
Theorem to5Bit_from5Bit_canonical s b :
  isSymbols s -> from5Bit s = Ret b ->
  isUint8Array b
  /\ 8 * Z.of_nat (length b) <= 5 * Z.of_nat (length s)
     < 8 * Z.of_nat (length b) + 5
  /\ to5Bit b = Ret s.
Proof. apply to5Bit_of_from5Bit. Qed.

Lemma to5Bit_from5Bit_canonical_witness :
  from5Bit [31; 28] = Ret [255] /\ to5Bit [255] = Ret [31; 28].
Proof.
  assert (E : from5Bit [31; 28] = Ret [255]) by (vm_compute; reflexivity).
  split; [exact E|].
  apply (to5Bit_from5Bit_canonical [31; 28] [255]); [|exact E].
  repeat constructor; lia.
Defined.

(** X4: two sequences of symbols that [from5Bit] converts to the same
    bytes are equal: the bytes have one spelling in symbols. *)
Theorem from5Bit_injective s1 s2 b :
  isSymbols s1 -> isSymbols s2 ->
  from5Bit s1 = Ret b -> from5Bit s2 = Ret b -> s1 = s2.
Proof.
  intros H1 H2 E1 E2.
  destruct (from5Bit_returns s1 b H1 E1) as (p1 & Hp1 & _ & Hd1 & Hl1).
  destruct (from5Bit_returns s2 b H2 E2) as (p2 & Hp2 & _ & Hd2 & Hl2).
  assert (L : length s1 = length s2 /\ p1 = p2) by lia.
  destruct L as [L <-].
  apply (digits_inj 5); try assumption; lia.
Qed.

Lemma from5Bit_injective_witness :
  from5Bit [31; 28] = Ret [255] /\ from5Bit [31; 29] <> Ret [255].
Proof.
  assert (E : from5Bit [31; 28] = Ret [255]) by (vm_compute; reflexivity).
  split; [exact E|]. intros E'.
  assert (S1 : isSymbols [31; 29]) by (repeat constructor; lia).
  assert (S2 : isSymbols [31; 28]) by (repeat constructor; lia).
  pose proof (from5Bit_injective [31; 29] [31; 28] [255] S1 S2 E' E) as Q.
  discriminate Q.
Defined.

End Converter.

(** ** The checksum *)
Section ChecksumMore.
Import JS Bech32 Pure.

(** Up to six symbols shifted into an empty state spell their number. *)
Lemma pfold_empty_digits l :
  isSymbols l -> (length l <= 6)%nat ->
  pfold 0 l = digits 5 l /\ 0 <= digits 5 l < 2 ^ (5 * Z.of_nat (length l)).
Proof.
  induction l as [|d l IH] using rev_ind; intros S L.
  - split; [reflexivity|]. unfold digits. simpl. lia.
  - apply Forall_app in S. destruct S as [S D]. inversion D; subst.
    rewrite length_app in *. cbn [length] in *.
    destruct (IH S ltac:(lia)) as [E R].
    rewrite digits_snoc. unfold pfold in *. rewrite fold_left_app.
    cbn [fold_left]. rewrite E.
    assert (P : 2 ^ (5 * Z.of_nat (length l)) <= 2 ^ 25)
      by (apply Z.pow_le_mono_r; lia).
    rewrite pstep_low by lia.
    rewrite Z.shiftl_mul_pow2 by lia.
    split.
    + symmetry. apply Z.add_nocarry_lxor.
      rewrite <- Z.shiftl_mul_pow2 by lia.
      apply Z.bits_inj'. intros k Hk.
      rewrite Z.land_spec, Z.bits_0.
      destruct (Z_lt_dec k 5).
      * now rewrite Z.shiftl_spec_low by lia.
      * rewrite <- (Z.mod_small d (2 ^ 5)) by (simpl; lia).
        rewrite <- Z.land_ones, Z.land_spec, Z.ones_spec_high by lia.
        now rewrite !andb_false_r.
    + replace (5 * Z.of_nat (length l + 1)) with (5 * Z.of_nat (length l) + 5)
        by lia.
      rewrite pow2_split by lia. change (2 ^ 5) with 32. lia.
Qed.

Lemma lxor_cancel_l p x y : Z.lxor p x = Z.lxor p y -> x = y.
Proof.
  intros E.
  rewrite <- (Z.lxor_0_l x), <- (Z.lxor_0_l y), <- (Z.lxor_nilpotent p).
  now rewrite !Z.lxor_assoc, E.
Qed.

Lemma checksum_determined hrp data cs :
  isSymbols data -> isSymbols cs -> length cs = 6%nat ->
  (verifyChecksum hrp (data ++ cs) = true <-> cs = createChecksum hrp data).
Proof.
  intros Hd Hc L. split.
  2:{ intros ->. apply verifyChecksum_created.
      now apply isSymbols_isUint8Array. }
  intros V. unfold verifyChecksum in V. cbv zeta in V. apply Z.eqb_eq in V.
  pose proof (isSymbols_isUint8Array _ Hd) as Hd8.
  pose proof (createChecksum_isSymbols hrp data Hd8) as Hs.
  pose proof (polymod_createChecksum hrp data Hd8) as V'.
  assert (F : forall t, isSymbols t -> length t = 6%nat ->
                polymod (humanReadablePartExpand hrp ++ data ++ t)
                = Z.lxor (pfold (pfold 1 (humanReadablePartExpand hrp ++ data))
                                [0; 0; 0; 0; 0; 0])
                         (digits 5 t)).
  { intros t Ht Lt.
    destruct (polymod_pfold _ (values_range hrp data t Hd8
                                 (isSymbols_isUint8Array _ Ht))) as [-> _].
    rewrite app_assoc, pfold_app.
    rewrite <- (Z.lxor_0_r (pfold 1 _)) at 1.
    rewrite pfold_lxor.
    destruct (pfold_empty_digits t Ht ltac:(lia)) as [-> _].
    f_equal. f_equal.
    destruct t as [|? [|? [|? [|? [|? [|? [|]]]]]]]; try discriminate Lt.
    reflexivity. }
  rewrite (F cs Hc L) in V.
  rewrite (F _ Hs (createChecksum_length hrp data)) in V'.
  apply (digits_inj 5); try assumption; try lia.
  apply (lxor_cancel_l (pfold (pfold 1 (humanReadablePartExpand hrp ++ data))
                              [0; 0; 0; 0; 0; 0])).
  now rewrite V, V'.
Qed.

(** X5: the checksum is the only one that verifies.  For symbols [data] and
    six symbols [cs], [verifyChecksum hrp (data ++ cs)] is true exactly when
    [cs] is [createChecksum hrp data]. *)
Theorem verifyChecksum_unique hrp data cs :
  isSymbols data -> isSymbols cs -> length cs = 6%nat ->
  (verifyChecksum hrp (data ++ cs) = true <-> cs = createChecksum hrp data).
Proof. apply checksum_determined. Qed.

Lemma verifyChecksum_unique_witness :
  verifyChecksum (str "a") [10; 28; 25; 31; 20; 0] = false.
Proof.
  assert (E : createChecksum (str "a") [] = [10; 28; 25; 31; 20; 31])
    by (vm_compute; reflexivity).
  destruct (verifyChecksum (str "a") [10; 28; 25; 31; 20; 0]) eqn:V;
    [|reflexivity].
  apply (verifyChecksum_unique (str "a") [] [10; 28; 25; 31; 20; 0]) in V.
  - rewrite E in V. discriminate V.
  - constructor.
  - repeat constructor; lia.
  - reflexivity.
Defined.

(** X6: the accumulator of [polymod] stays below 2^30 over every byte
    array, so the signed 32-bit operators never see the sign bit. *)
Theorem polymod_below_2_30 values :
  isUint8Array values -> 0 <= polymod values < 2 ^ 30.
Proof.
  intros H. apply polymod_pfold.
  apply (below_2_30 _ 8); [simpl; lia|exact H].
Qed.

Lemma polymod_below_2_30_witness :
  0 <= polymod [255; 255; 255; 255; 255; 255; 255; 255] < 2 ^ 30.
Proof.
  apply polymod_below_2_30. repeat constructor; lia.
Defined.

(** Two different symbols exchanged with their neighbour change the
    polymod. *)
Lemma pfold_transposition c pre post a b :
  0 <= c < 2 ^ 30 ->
  Forall (fun v => 0 <= v < 2 ^ 30) pre ->
  Forall (fun v => 0 <= v < 2 ^ 30) post ->
  0 <= a < 32 -> 0 <= b < 32 -> a <> b ->
  pfold c (pre ++ a :: b :: post) <> pfold c (pre ++ b :: a :: post).
Proof.
  intros Hc Hpre Hpost Ha Hb N E.
  rewrite !pfold_app in E. cbn [pfold fold_left] in E. fold (pfold) in E.
  pose proof (pfold_range pre c Hc Hpre) as R.
  set (c0 := pfold c pre) in *.
  assert (R1 : forall x y, 0 <= x < 32 -> 0 <= y < 32 ->
                           0 <= pstep (pstep c0 x) y < 2 ^ 30)
    by (intros; apply pstep_range; lia).
  apply (pfold_inj post) in E; try assumption; try (apply R1; lia).
  apply N. apply Z.lxor_eq.
  assert (X : Z.lxor (pstep (pstep c0 a) b) (pstep (pstep c0 b) a) = 0)
    by (rewrite E; apply Z.lxor_nilpotent).
  rewrite <- pstep_lxor, <- pstep_lxor, Z.lxor_nilpotent in X.
  rewrite (Z.lxor_comm b a) in X.
  set (e := Z.lxor a b) in *.
  assert (He : 0 <= e < 2 ^ 5) by (apply lxor_range; simpl; lia).
  rewrite (pstep_low 0 e) in X by lia.
  rewrite Z.shiftl_0_l, Z.lxor_0_l in X.
  rewrite pstep_low in X by (simpl in He; lia).
  apply Z.lxor_eq in X. rewrite Z.shiftl_mul_pow2 in X by lia.
  simpl in He. lia.
Qed.

Lemma checksum_transposed hrp l1 a b l2 :
  isSymbols (l1 ++ a :: b :: l2) -> a <> b ->
  verifyChecksum hrp (l1 ++ a :: b :: l2) = true ->
  verifyChecksum hrp (l1 ++ b :: a :: l2) = false.
Proof.
  intros S N V.
  assert (S' : isSymbols (l1 ++ b :: a :: l2)).
  { apply Forall_app in S. destruct S as [S1 S2].
    inversion S2 as [|? ? Ha S3]; subst. inversion S3; subst.
    apply Forall_app. split; [exact S1|].
    constructor; [assumption|]. constructor; assumption. }
  unfold verifyChecksum in *. cbv zeta in *.
  apply Z.eqb_eq in V. apply Z.eqb_neq. rewrite <- V.
  destruct (polymod_pfold _ (expanded_range hrp _ S)) as [-> _].
  destruct (polymod_pfold _ (expanded_range hrp _ S')) as [-> _].
  rewrite !app_assoc.
  pose proof (expanded_range hrp _ S) as R. rewrite app_assoc in R.
  apply Forall_app in R. destruct R as [R1 R2].
  inversion R2 as [|? ? _ R3]; subst. inversion R3; subst.
  apply Forall_app in S. destruct S as [_ S2].
  inversion S2 as [|? ? Ha S3]; subst. inversion S3; subst.
  apply pfold_transposition; try assumption; lia.
Qed.

End ChecksumMore.

(** ** Strings the decoder accepts *)
Section Accepted.
Import JS Bech32 Pure.

Lemma lowerChar_idempotent c : lowerChar (lowerChar c) = lowerChar c.
Proof. destruct c as [[] [] [] [] [] [] [] []]; reflexivity. Qed.

Lemma toLowerCase_idempotent s : toLowerCase (toLowerCase s) = toLowerCase s.
Proof.
  unfold toLowerCase. rewrite map_map. apply map_ext.
  intros c. apply lowerChar_idempotent.
Qed.

Lemma fixed_of_toLowerCase s :
  toLowerCase s = s -> Forall (fun c => lowerChar c = c) s.
Proof.
  induction s as [|c s IH]; intros E; [constructor|].
  unfold toLowerCase in *. cbn [map] in E. injection E as E1 E2.
  constructor; [exact E1|now apply IH].
Qed.

(** What the decoder has checked when it returns a result. *)
Lemma decodeTo5BitArray_result s d :
  decodeTo5BitArray s = Ret (Some d) ->
  exists pre syms,
    toLowerCase s = pre ++ SEPARATOR :: map symbolChar syms
    /\ pre <> [] /\ isSymbols syms /\ (6 <= length syms)%nat
    /\ verifyChecksum pre syms = true
    /\ d = mkDecoded pre (dropLast 6 syms).
Proof.
  intros E.
  destruct (last_occurrence (toLowerCase s) SEPARATOR)
    as [A|(pre & rest & Es & N)].
  { rewrite decodeTo5BitArray_absent in E by assumption. discriminate E. }
  destruct (decode_split s pre rest Es N)
    as [(_ & D & _)|[(_ & _ & D & _)|[(_ & _ & c & _ & _ & D & _)
                                     |(P & L & syms & Hs & -> & D & _)]]];
    rewrite D in E; try discriminate E.
  exists pre, syms. rewrite length_map in L.
  destruct (verifyChecksum pre syms); [|discriminate E].
  injection E as <-. repeat split; assumption.
Qed.

Lemma dropLast_split syms :
  (6 <= length syms)%nat ->
  exists cs, syms = dropLast 6 syms ++ cs /\ length cs = 6%nat.
Proof.
  intros L. unfold dropLast.
  set (n := Z.to_nat (Z.max (Z.of_nat (length syms) - 6) 0)).
  exists (skipn n syms). split; [symmetry; apply firstn_skipn|].
  rewrite length_skipn. subst n. lia.
Qed.

Lemma from5Bit_ends fiveBit : from5Bit fiveBit <> Diverge.
Proof.
  unfold from5Bit, convertBits. change (shl 1 8 - 1) with (Z.ones 8).
  destruct (convertLoop_total 5 8 ltac:(lia) fiveBit 0 0 [])
    as (value & bits & res & -> & _); [lia|lia|constructor|].
  destruct (bits >=? 5); [discriminate|].
  destruct (truthy _); discriminate.
Qed.

(** The parts of a string on which [decode] returns a result. *)
Lemma decode_result_parts s d :
  decode s = Ret (Some d) ->
  exists syms front bytes,
    toLowerCase s
    = humanReadablePart d ++ SEPARATOR :: map symbolChar syms
    /\ isSymbols front /\ length syms = (length front + 6)%nat
    /\ from5Bit front = Ret bytes
    /\ d = mkDecoded (humanReadablePart d) bytes.
Proof.
  unfold decode. intros E.
  destruct (decodeTo5BitArray s) as [[r|]| |] eqn:D; try discriminate E.
  cbn [bind] in E.
  destruct (from5Bit (data r)) as [bytes| |] eqn:B; try discriminate E.
  cbn [bind] in E. injection E as <-. cbn [humanReadablePart data].
  destruct (decodeTo5BitArray_result s r D)
    as (pre & syms & Es & P & Hs & L & V & ->).
  cbn [humanReadablePart data] in *.
  destruct (dropLast_split syms L) as (cs & Ey & Lc).
  exists syms, (dropLast 6 syms), bytes.
  split; [exact Es|]. split.
  { rewrite Ey in Hs. apply Forall_app in Hs. apply Hs. }
  split; [|split; [exact B|reflexivity]].
  rewrite Ey at 1. rewrite length_app, Lc. reflexivity.
Qed.

(** X7: the two directions of the 5-bit interface.
    [decodeTo5BitArray (encode5BitArray hrp data5)] returns the prefix and
    the symbols, for every sequence of symbols and every non-empty prefix
    that is its own lower case, also one that has the separator in it. *)
Theorem decodeTo5BitArray_encode5BitArray_roundtrip hrp data5 :
  hrp <> [] -> toLowerCase hrp = hrp -> isSymbols data5 ->
  decodeTo5BitArray (encode5BitArray hrp data5)
  = Ret (Some (mkDecoded hrp data5)).
Proof.
  intros N F S. apply decodeTo5BitArray_encode5BitArray; try assumption.
  now apply fixed_of_toLowerCase.
Qed.

Lemma decodeTo5BitArray_encode5BitArray_roundtrip_witness :
  decodeTo5BitArray (encode5BitArray (str "a1b") [1; 2; 3])
  = Ret (Some (mkDecoded (str "a1b") [1; 2; 3])).
Proof.
  apply decodeTo5BitArray_encode5BitArray_roundtrip.
  - discriminate.
  - reflexivity.
  - repeat constructor; lia.
Defined.

(** X8: a string has one spelling up to case.  When [decode] returns a
    result, [encode] of the prefix and the bytes of that result returns the
    lower case of the string. *)
Theorem encode_decode_lowercase s d :
  decode s = Ret (Some d) ->
  encode (humanReadablePart d) (data d) = Ret (toLowerCase s).
Proof.
  unfold decode. intros E.
  destruct (decodeTo5BitArray s) as [[r|]| |] eqn:D; try discriminate E.
  cbn [bind] in E.
  destruct (from5Bit (data r)) as [bytes| |] eqn:B; try discriminate E.
  cbn [bind] in E. injection E as <-. cbn [humanReadablePart data].
  destruct (decodeTo5BitArray_result s r D)
    as (pre & syms & -> & P & Hs & L & V & ->).
  cbn [humanReadablePart data] in *.
  destruct (dropLast_split syms L) as (cs & Es & Lc).
  set (front := dropLast 6 syms) in *. clearbody front. subst syms.
  apply Forall_app in Hs. destruct Hs as [Hf Hc].
  apply (checksum_determined pre front cs Hf Hc Lc) in V. subst cs.
  destruct (to5Bit_of_from5Bit front bytes Hf B) as (_ & _ & T).
  unfold encode. rewrite T. cbn [bind].
  now rewrite encode5BitArray_symbols by assumption.
Qed.

Lemma encode_decode_lowercase_witness :
  encode (str "a") [] = Ret (str "a12uel5l").
Proof.
  apply (encode_decode_lowercase (str "A12UEL5L") (mkDecoded (str "a") [])).
  vm_compute. reflexivity.
Defined.

(** X9: the decoder does not look at the case: [decode] of a string is
    [decode] of its lower case, so a string in upper case or in mixed case
    is decoded like the one in lower case. *)
Theorem decode_ignores_case s :
  decode (toLowerCase s) = decode s
  /\ decodeTo5BitArray (toLowerCase s) = decodeTo5BitArray s.
Proof.
  assert (E : decodeTo5BitArray (toLowerCase s) = decodeTo5BitArray s).
  { unfold decodeTo5BitArray. cbv zeta.
    now rewrite toLowerCase_idempotent. }
  split; [|exact E]. unfold decode. now rewrite E.
Qed.

(** X10: the shape of a result.  [decode] ends on every string; when it
    returns a result, the prefix is not empty and is in lower case, the
    data are bytes, and with [k] symbols between the separator and the
    checksum there are floor(5k / 8) bytes. *)
Theorem decode_result_shape s :
  decode s <> Diverge
  /\ forall d, decode s = Ret (Some d) ->
       humanReadablePart d <> []
       /\ toLowerCase (humanReadablePart d) = humanReadablePart d
       /\ isUint8Array (data d)
       /\ exists k : nat,
            length s = (length (humanReadablePart d) + 7 + k)%nat
            /\ 8 * Z.of_nat (length (data d)) <= 5 * Z.of_nat k
               < 8 * Z.of_nat (length (data d)) + 5.
Proof.
  split.
  - unfold decode.
    destruct (decodeTo5BitArray s) as [[r|]| |] eqn:D; cbn [bind];
      try discriminate.
    + pose proof (from5Bit_ends (data r)) as F.
      destruct (from5Bit (data r)); cbn [bind]; try discriminate.
      contradiction.
    + exfalso.
      destruct (last_occurrence (toLowerCase s) SEPARATOR)
        as [A|(pre & rest & Es & N)].
      { rewrite decodeTo5BitArray_absent in D by assumption. discriminate D. }
      destruct (decode_split s pre rest Es N)
        as [(_ & D' & _)|[(_ & _ & D' & _)|[(_ & _ & c & _ & _ & D' & _)
                                           |(_ & _ & syms & _ & _ & D' & _)]]];
        rewrite D' in D; try discriminate D.
      destruct (verifyChecksum pre syms); discriminate D.
  - unfold decode. intros d E.
    destruct (decodeTo5BitArray s) as [[r|]| |] eqn:D; try discriminate E.
    cbn [bind] in E.
    destruct (from5Bit (data r)) as [bytes| |] eqn:B; try discriminate E.
    cbn [bind] in E. injection E as <-. cbn [humanReadablePart data].
    destruct (decodeTo5BitArray_result s r D)
      as (pre & syms & Es & P & Hs & L & V & ->).
    cbn [humanReadablePart data] in *.
    destruct (dropLast_split syms L) as (cs & Ey & Lc).
    set (front := dropLast 6 syms) in *. clearbody front. subst syms.
    apply Forall_app in Hs. destruct Hs as [Hf Hc].
    destruct (to5Bit_of_from5Bit front bytes Hf B) as (Hb & Hl & _).
    split; [exact P|]. split; [|split; [exact Hb|]].
    + pose proof (toLowerCase_idempotent s) as I. rewrite Es in I.
      unfold toLowerCase in I |- *. rewrite map_app in I.
      apply (f_equal (firstn (length pre))) in I.
      rewrite <- (length_map lowerChar pre) in I at 1.
      now rewrite !firstn_app, !Nat.sub_diag, !firstn_all, !app_nil_r in I.
    + exists (length front). split; [|exact Hl].
      rewrite <- (length_map lowerChar s). fold (toLowerCase s). rewrite Es.
      rewrite length_app. cbn [length].
      rewrite length_map, length_app, Lc. lia.
Qed.

Lemma decode_result_shape_witness :
  exists k : nat,
    length (str "iota1qqxz3wcw") = (length (str "iota") + 7 + k)%nat
    /\ 8 * Z.of_nat (length [0]) <= 5 * Z.of_nat k
       < 8 * Z.of_nat (length [0]) + 5.
Proof.
  destruct (decode_result_shape (str "iota1qqxz3wcw")) as [_ H].
  destruct (H (mkDecoded (str "iota") [0])) as (_ & _ & _ & K).
  - vm_compute. reflexivity.
  - exact K.
Defined.

End Accepted.

(** ** Exchanged neighbours *)
Section Transposition.
Import JS Bech32 Pure.

Lemma transpose_at A x y B :
  transpose (A ++ x :: y :: B) (length A) = A ++ y :: x :: B
  /\ nth (length A) (A ++ x :: y :: B) zero = x
  /\ nth (S (length A)) (A ++ x :: y :: B) zero = y.
Proof.
  unfold transpose. split; [|split].
  - rewrite firstn_app, Nat.sub_diag, firstn_all. cbn [firstn].
    rewrite app_nil_r. f_equal.
    rewrite !app_nth2 by lia.
    replace (S (length A) - length A)%nat with 1%nat by lia.
    rewrite Nat.sub_diag. cbn [nth]. f_equal. f_equal.
    replace (S (S (length A))) with (length (A ++ [x; y]))
      by (rewrite length_app; simpl; lia).
    change (A ++ x :: y :: B) with (A ++ [x; y] ++ B).
    rewrite app_assoc, skipn_app, skipn_all, Nat.sub_diag. reflexivity.
  - rewrite app_nth2, Nat.sub_diag by lia. reflexivity.
  - rewrite app_nth2 by lia.
    replace (S (length A) - length A)%nat with 1%nat by lia. reflexivity.
Qed.

Lemma toLowerCase_transpose s i :
  toLowerCase (transpose s i) = transpose (toLowerCase s) i.
Proof.
  unfold toLowerCase, transpose.
  rewrite map_app. cbn [map].
  rewrite firstn_map, skipn_map.
  change zero with (lowerChar zero) at 3 4.
  now rewrite !map_nth.
Qed.

Lemma toLowerCase_nth s i :
  nth i (toLowerCase s) zero = lowerChar (nth i s zero).
Proof.
  unfold toLowerCase. change zero with (lowerChar zero) at 1.
  apply map_nth.
Qed.

(** X11: two neighbours exchanged.  In a string whose checksum verifies,
    exchanging two neighbouring characters after the separator that differ,
    also in case only, gives a string on which [decode] returns
    undefined. *)
Theorem transposition_detected s d i :
  decodeTo5BitArray s = Ret (Some d) ->
  (length (humanReadablePart d) < i)%nat -> (S i < length s)%nat ->
  lowerChar (nth i s zero) <> lowerChar (nth (S i) s zero) ->
  decode (transpose s i) = Ret None.
Proof.
  intros D I J N.
  destruct (decodeTo5BitArray_result s d D)
    as (pre & syms & Es & P & Hs & L & V & ->).
  cbn [humanReadablePart] in I.
  assert (Ls : length s = (length pre + S (length syms))%nat).
  { rewrite <- (length_map lowerChar s). fold (toLowerCase s). rewrite Es.
    rewrite length_app. cbn [length]. now rewrite length_map. }
  destruct (nth_split syms 0 (n := i - length pre - 1) ltac:(lia))
    as (l1 & t & E1 & L1).
  set (a := nth (i - length pre - 1) syms 0) in *. clearbody a.
  destruct t as [|b l2].
  { subst syms. rewrite length_app in Ls. cbn [length] in Ls. lia. }
  subst syms.
  assert (Ei : i = length (pre ++ SEPARATOR :: map symbolChar l1)).
  { rewrite length_app. cbn [length]. rewrite length_map. lia. }
  assert (Es' : toLowerCase s
                = (pre ++ SEPARATOR :: map symbolChar l1)
                  ++ symbolChar a :: symbolChar b :: map symbolChar l2).
  { rewrite Es, map_app, <- app_assoc. reflexivity. }
  rewrite <- !toLowerCase_nth, Es', Ei in N.
  destruct (transpose_at (pre ++ SEPARATOR :: map symbolChar l1)
              (symbolChar a) (symbolChar b) (map symbolChar l2))
    as (T & Na & Nb).
  rewrite Na, Nb in N.
  assert (Nab : a <> b) by (intros ->; now apply N).
  pose proof (checksum_transposed pre l1 a b l2 Hs Nab V) as V'.
  assert (Hs' : isSymbols (l1 ++ b :: a :: l2)).
  { apply Forall_app in Hs. destruct Hs as [S1 S2].
    inversion S2 as [|? ? Ha S3]; subst. inversion S3; subst.
    apply Forall_app. split; [exact S1|].
    constructor; [assumption|]. constructor; assumption. }
  unfold decode.
  rewrite (decodeTo5BitArray_lowered _ pre (l1 ++ b :: a :: l2));
    try assumption.
  - now rewrite V'.
  - rewrite toLowerCase_transpose, Es', Ei, T.
    rewrite map_app, <- app_assoc. reflexivity.
  - rewrite length_app in *. exact L.
Qed.

Lemma transposition_detected_witness :
  decode (transpose (str "a12uel5l") 6) = Ret None.
Proof.
  apply (transposition_detected (str "a12uel5l") (mkDecoded (str "a") [])).
  - vm_compute. reflexivity.
  - simpl. lia.
  - simpl. lia.
  - vm_compute. discriminate.
Defined.

End Transposition.

(** ** The address pattern and the free functions *)
Section Addresses.
Import JS Bech32 Pure.

Variable localize : list ascii -> option (list ascii) -> list ascii.
Variable convertBytesToHexString : list Z -> list ascii.

(** The class [02-9ac-hj-np-z] is the alphabet. *)
Lemma inRanges_alphabet c :
  AddressRegExp.inRanges Address.ADDRESS_CLASS c = RegExp.inClass CHARSET c.
Proof. destruct c as [[] [] [] [] [] [] [] []]; reflexivity. Qed.

Lemma address_test_nil s : AddressRegExp.test [] s = true <-> s = [].
Proof. destruct s; simpl; split; congruence. Qed.

Lemma address_test_literals w : forall p s,
  AddressRegExp.test (map AddressRegExp.Lit w ++ p) s = true
  <-> exists s', s = w ++ s' /\ AddressRegExp.test p s' = true.
Proof.
  induction w as [|c w IH]; intros p s; cbn [map app].
  - split; [intros H; now exists s|intros (s' & -> & H); exact H].
  - cbn [AddressRegExp.test]. destruct s as [|x s].
    + split; [discriminate|intros (s' & E & _); discriminate E].
    + rewrite andb_true_iff, IH. split.
      * intros (E & s' & -> & H). apply Ascii.eqb_eq in E. subst.
        now exists s'.
      * intros (s' & [= -> ->] & H). split; [apply Ascii.eqb_refl|].
        now exists s'.
Qed.

Lemma timesThen_end n : forall s,
  AddressRegExp.timesThen Address.ADDRESS_CLASS (AddressRegExp.test []) n s
  = true
  <-> length s = n /\ Forall (fun c => In c CHARSET) s.
Proof.
  induction n as [|n IH]; intros s; cbn [AddressRegExp.timesThen].
  - rewrite address_test_nil. split.
    + intros ->. split; [reflexivity|constructor].
    + intros [L _]. now destruct s.
  - destruct s as [|x s].
    + split; [discriminate|intros [L _]; discriminate L].
    + rewrite andb_true_iff, IH, inRanges_alphabet, inClass_In. split.
      * intros (I & L & F). split; [simpl; lia|now constructor].
      * intros [L F]. inversion F; subst. simpl in L.
        repeat split; try assumption. lia.
Qed.

(** The texts the address pattern of a prefix of letters and digits
    accepts. *)
Lemma isValidBech32AddressAndPrefix_iff address prefix :
  forallb RegExp.isLiteral prefix = true ->
  Address.isValidBech32AddressAndPrefix address prefix = Some true
  <-> exists rest, address = prefix ++ "1"%char :: rest
                   /\ length rest = 59%nat
                   /\ Forall (fun c => In c CHARSET) rest.
Proof.
  intros H. unfold Address.isValidBech32AddressAndPrefix,
    Address.addressPattern, RegExp.literals.
  rewrite H. split.
  - intros [= T]. apply address_test_literals in T.
    destruct T as (s' & -> & T).
    change [AddressRegExp.Lit "1"%char;
            AddressRegExp.RangesTimes Address.ADDRESS_CLASS 59]
      with (map AddressRegExp.Lit ["1"%char]
            ++ [AddressRegExp.RangesTimes Address.ADDRESS_CLASS 59]) in T.
    apply address_test_literals in T. destruct T as (rest & -> & T).
    cbn [AddressRegExp.test] in T. apply timesThen_end in T.
    exists rest. cbn [app]. repeat split; apply T.
  - intros (rest & -> & L & F). f_equal.
    apply address_test_literals. exists ("1"%char :: rest).
    split; [reflexivity|].
    change [AddressRegExp.Lit "1"%char;
            AddressRegExp.RangesTimes Address.ADDRESS_CLASS 59]
      with (map AddressRegExp.Lit ["1"%char]
            ++ [AddressRegExp.RangesTimes Address.ADDRESS_CLASS 59]).
    apply address_test_literals. exists rest. split; [reflexivity|].
    cbn [AddressRegExp.test]. apply timesThen_end. now split.
Qed.

Lemma lowerLettersDigits_literal prefix :
  forallb (fun c => isLowerLetter c || isDigit c) prefix = true ->
  forallb RegExp.isLiteral prefix = true.
Proof.
  intros H. pose proof (literals_lowerLettersDigits prefix H) as E.
  unfold RegExp.literals in E.
  destruct (forallb RegExp.isLiteral prefix); [reflexivity|discriminate E].
Qed.

Lemma startsWith_app prefix rest : Address.startsWith (prefix ++ rest) prefix = true.
Proof.
  induction prefix as [|c prefix IH]; [destruct rest; reflexivity|].
  cbn [app Address.startsWith]. now rewrite Ascii.eqb_refl, IH.
Qed.

(** X12: the address pattern.  For a prefix of lower-case letters and
    digits, [isValidBech32AddressAndPrefix] is true exactly on the prefix,
    "1" and 59 characters of the alphabet of the codec, and every such
    text passes [Bech32.matches]. *)
Theorem isValidBech32AddressAndPrefix_alphabet address prefix :
  forallb (fun c => isLowerLetter c || isDigit c) prefix = true ->
  (Address.isValidBech32AddressAndPrefix address prefix = Some true
   <-> exists rest, address = prefix ++ SEPARATOR :: rest
                    /\ length rest = 59%nat
                    /\ Forall (fun c => In c CHARSET) rest)
  /\ (Address.isValidBech32AddressAndPrefix address prefix = Some true ->
      matches prefix (Some address) = Some true).
Proof.
  intros H.
  pose proof (isValidBech32AddressAndPrefix_iff address prefix
                (lowerLettersDigits_literal prefix H)) as I.
  split; [exact I|].
  intros V. apply I in V. destruct V as (rest & -> & L & F).
  apply matches_iff; [exact H|].
  exists rest. repeat split; [lia|exact F].
Qed.

Lemma isValidBech32AddressAndPrefix_alphabet_witness :
  Address.isValidBech32AddressAndPrefix
    (str "iota1qrhacyfwlcnzkvzteumekfkrrwks98mpdm37cj4xx3drvmjvnep6xqgyzyx")
    (str "iota") = Some true
  /\ matches (str "iota")
       (Some (str "iota1qrhacyfwlcnzkvzteumekfkrrwks98mpdm37cj4xx3drvmjvnep6xqgyzyx"))
     = Some true.
Proof.
  assert (V : Address.isValidBech32AddressAndPrefix
                (str "iota1qrhacyfwlcnzkvzteumekfkrrwks98mpdm37cj4xx3drvmjvnep6xqgyzyx")
                (str "iota") = Some true) by (vm_compute; reflexivity).
  split; [exact V|].
  destruct (isValidBech32AddressAndPrefix_alphabet
              (str "iota1qrhacyfwlcnzkvzteumekfkrrwks98mpdm37cj4xx3drvmjvnep6xqgyzyx")
              (str "iota") eq_refl) as [_ M].
  exact (M V).
Defined.

(** The string [toBech32] returns. *)
Lemma toBech32_string t addressBytes hrp :
  isUint8Array addressBytes -> hrp <> [] -> toLowerCase hrp = hrp ->
  exists r : list Z,
    isSymbols r
    /\ (exists pad, 0 <= pad < 5
          /\ 5 * Z.of_nat (length r)
             = 8 * Z.of_nat (S (length addressBytes)) + pad)
    /\ Bech32Helper.toBech32 t addressBytes hrp
       = Ret (hrp ++ SEPARATOR
                  :: map symbolChar (r ++ createChecksum hrp r))
    /\ decode (hrp ++ SEPARATOR :: map symbolChar (r ++ createChecksum hrp r))
       = Ret (Some (mkDecoded hrp (t mod 256 :: addressBytes))).
Proof.
  intros B N F.
  assert (B' : isUint8Array (u8 t :: addressBytes))
    by (constructor; [apply u8_range|exact B]).
  destruct (to5Bit_spec _ B') as (r & pad & T & Hr & Hp & _ & Hl).
  exists r. split; [exact Hr|]. split.
  { exists pad. split; [exact Hp|]. cbn [length] in Hl. exact Hl. }
  unfold Bech32Helper.toBech32.
  destruct (decode_encode hrp (u8 t :: addressBytes) N
              (fixed_of_toLowerCase hrp F) B') as (s & E & D).
  unfold encode in E |- *. rewrite T in E |- *. cbn [bind] in E |- *.
  injection E as <-.
  rewrite encode5BitArray_symbols in D |- * by assumption.
  split; [reflexivity|exact D].
Qed.

(** X13: the validator and the encoder.  For a prefix of lower-case
    letters and digits, [validateBech32Address] accepts the string
    [toBech32] returns for 32 address bytes, whatever the address type, and
    reports a wrong format for address bytes of any other length. *)
Theorem validateBech32Address_toBech32 t addressBytes hrp :
  lowerLettersDigits hrp -> isUint8Array addressBytes ->
  exists s,
    Bech32Helper.toBech32 t addressBytes hrp = Ret s
    /\ (length addressBytes = 32%nat ->
        Address.validateBech32Address localize hrp s = Some (Ret None))
    /\ (length addressBytes <> 32%nat ->
        Address.validateBech32Address localize hrp s
        = Some (Ret (Some (localize (str "error.send.wrongAddressFormat")
                                    None)))).
Proof.
  intros [N F] B.
  pose proof (toLowerCase_fixed _ (lowerLettersDigits_fixed hrp F)) as Fx.
  destruct (toBech32_string t addressBytes hrp B N Fx)
    as (r & Hr & (pad & Hp & Hl) & -> & D).
  eexists. split; [reflexivity|].
  set (rest := map symbolChar (r ++ createChecksum hrp r)) in *.
  assert (Lr : length rest = (length r + 6)%nat).
  { subst rest. now rewrite length_map, length_app, createChecksum_length. }
  assert (Fr : Forall (fun c => In c CHARSET) rest).
  { subst rest. apply symbols_In_CHARSET. apply Forall_app. split; [exact Hr|].
    now apply createChecksum_isSymbols, isSymbols_isUint8Array. }
  pose proof (isValidBech32AddressAndPrefix_iff (hrp ++ SEPARATOR :: rest) hrp
                (lowerLettersDigits_literal hrp F)) as I.
  unfold Address.isValidBech32AddressAndPrefix in I.
  unfold Address.validateBech32Address.
  rewrite startsWith_app.
  destruct (hrp ++ SEPARATOR :: rest) as [|x0 s0] eqn:Es;
    [destruct hrp; discriminate Es|].
  rewrite <- Es in *. cbn [orb negb].
  destruct (Address.addressPattern hrp) as [p|] eqn:P.
  2:{ unfold Address.addressPattern in P.
      rewrite (literals_lowerLettersDigits hrp F) in P. discriminate P. }
  split.
  - intros L.
    assert (T : AddressRegExp.test p (hrp ++ SEPARATOR :: rest) = true).
    { assert (Q : Some (AddressRegExp.test p (hrp ++ SEPARATOR :: rest))
                  = Some true); [|now injection Q].
      apply I. exists rest. repeat split; [lia|exact Fr]. }
    rewrite T, D. cbn [negb humanReadablePart].
    destruct (list_eq_dec ascii_dec hrp hrp); [reflexivity|contradiction].
  - intros L.
    destruct (AddressRegExp.test p (hrp ++ SEPARATOR :: rest)) eqn:T;
      [|reflexivity].
    exfalso.
    assert (Q : Some true = Some true) by reflexivity.
    apply I in Q. destruct Q as (rest' & E' & L' & _).
    apply app_inv_head in E'. injection E' as <-. lia.
Qed.



End Addresses.

Lemma validateBech32Address_toBech32_witness :
  exists s,
    Bech32Helper.toBech32 0 (repeat 17 32) (str "iota") = Ret s
    /\ Address.validateBech32Address (fun key _ => key) (str "iota") s
       = Some (Ret None).
Proof.
  destruct (validateBech32Address_toBech32 (fun key _ => key)
              0 (repeat 17 32) (str "iota"))
    as (s & E & A & _).
  - split; [discriminate|reflexivity].
  - apply Forall_forall. intros x Hx. apply repeat_spec in Hx. lia.
  - exists s. split; [exact E|]. apply A. reflexivity.
Defined.



(** ** Typed addresses *)
Section TypedAddresses.
Import JS Bech32 Pure.

(** X16: after the pattern check.  For a prefix of lower-case letters and
    digits and a text on which [Bech32Helper.matches] is true,
    [fromBech32] with that prefix throws neither a structural error nor the
    prefix-mismatch error: it returns undefined or an address, or throws for
    the padding or for an empty payload. *)
Theorem matches_fromBech32 text hrp :
  lowerLettersDigits hrp -> Bech32Helper.matches text hrp = Some true ->
  Bech32Helper.fromBech32 text hrp = Ret None
  \/ (exists a, Bech32Helper.fromBech32 text hrp = Ret (Some a))
  \/ Bech32Helper.fromBech32 text hrp = Throw ExcessPaddingError
  \/ Bech32Helper.fromBech32 text hrp = Throw NonZeroPaddingError
  \/ Bech32Helper.fromBech32 text hrp = Throw EmptyPayloadError.
Proof.
  intros [N F] M. unfold Bech32Helper.matches in M.
  apply matches_iff in M; [|exact F]. destruct M as (rest & -> & L & C).
  destruct (In_CHARSET_symbols rest C) as (syms & Hs & ->).
  rewrite length_map in L.
  unfold Bech32Helper.fromBech32, decode.
  rewrite decodeTo5BitArray_wellformed;
    try assumption; [|now apply lowerLettersDigits_fixed].
  destruct (verifyChecksum hrp syms); cbn [bind]; [|now left].
  cbn [data humanReadablePart].
  destruct (from5Bit (dropLast 6 syms)) as [bytes|e|] eqn:B; cbn [bind].
  - cbn [humanReadablePart data].
    destruct (list_eq_dec ascii_dec hrp hrp); [|contradiction].
    cbn [negb]. destruct bytes as [|t bytes].
    + right. right. right. right. reflexivity.
    + right. left. eexists.
      cbn [length]. destruct (Z.eqb_spec (Z.of_nat (S (length bytes))) 0);
        [lia|reflexivity].
  - destruct (from5Bit_throws _ _ B) as [-> | ->]; auto.
  - now apply from5Bit_ends in B.
Qed.

Lemma matches_fromBech32_witness :
  Bech32Helper.matches (str "a12uel5l") (str "a") = Some true
  /\ Bech32Helper.fromBech32 (str "a12uel5l") (str "a")
     = Throw EmptyPayloadError.
Proof.
  assert (H : lowerLettersDigits (str "a"))
    by (split; [discriminate|reflexivity]).
  assert (M : Bech32Helper.matches (str "a12uel5l") (str "a") = Some true)
    by (vm_compute; reflexivity).
  split; [exact M|].
  destruct (matches_fromBech32 (str "a12uel5l") (str "a") H M)
    as [R|[[a R]|[R|[R|R]]]]; try exact R;
    exfalso; vm_compute in R; discriminate R.
Defined.

(** X17: two encodings are equal only for equal inputs.  For non-empty
    prefixes that are their own lower case and byte arrays, [encode]
    returning one string for two inputs means the prefixes and the bytes
    are the same. *)
Theorem encode_injective h1 b1 h2 b2 s :
  h1 <> [] -> toLowerCase h1 = h1 -> isUint8Array b1 ->
  h2 <> [] -> toLowerCase h2 = h2 -> isUint8Array b2 ->
  encode h1 b1 = Ret s -> encode h2 b2 = Ret s ->
  h1 = h2 /\ b1 = b2.
Proof.
  intros N1 F1 B1 N2 F2 B2 E1 E2.
  destruct (decode_encode h1 b1 N1 (fixed_of_toLowerCase _ F1) B1)
    as (s1 & E1' & D1).
  destruct (decode_encode h2 b2 N2 (fixed_of_toLowerCase _ F2) B2)
    as (s2 & E2' & D2).
  rewrite E1 in E1'. rewrite E2 in E2'.
  injection E1' as <-. injection E2' as <-.
  rewrite D1 in D2. now injection D2.
Qed.

Lemma encode_injective_witness :
  encode (str "iota") [0] = Ret (str "iota1qqxz3wcw")
  /\ str "iota" = str "iota" /\ [0] = [0].
Proof.
  assert (E : encode (str "iota") [0] = Ret (str "iota1qqxz3wcw"))
    by (vm_compute; reflexivity).
  assert (B : isUint8Array [0]) by (repeat constructor; lia).
  split; [exact E|].
  exact (encode_injective (str "iota") [0] (str "iota") [0]
           (str "iota1qqxz3wcw")
           ltac:(discriminate) eq_refl B ltac:(discriminate) eq_refl B E E).
Defined.

(** X18: an address of another network.  For a valid prefix and byte
    arrays, [fromBech32] of what [toBech32] returns, asked for another
    prefix, throws the prefix-mismatch error that names the prefix asked
    for and the prefix of the string. *)
Theorem fromBech32_other_prefix t addressBytes hrp expected :
  hrp <> [] -> toLowerCase hrp = hrp -> isUint8Array addressBytes ->
  expected <> hrp ->
  exists s,
    Bech32Helper.toBech32 t addressBytes hrp = Ret s
    /\ Bech32Helper.fromBech32 s expected
       = Throw (PrefixMismatchError expected hrp).
Proof.
  intros N F B D.
  destruct (toBech32_string t addressBytes hrp B N F)
    as (r & _ & _ & -> & E).
  eexists. split; [reflexivity|].
  unfold Bech32Helper.fromBech32. rewrite E. cbn [bind humanReadablePart].
  destruct (list_eq_dec ascii_dec hrp expected) as [Q|Q];
    [now subst|reflexivity].
Qed.

Lemma fromBech32_other_prefix_witness :
  exists s,
    Bech32Helper.toBech32 0 [1; 2] (str "iota") = Ret s
    /\ Bech32Helper.fromBech32 s (str "atoi")
       = Throw (PrefixMismatchError (str "atoi") (str "iota")).
Proof.
  apply (fromBech32_other_prefix 0 [1; 2] (str "iota") (str "atoi")).
  - discriminate.
  - reflexivity.
  - repeat constructor; lia.
  - discriminate.
Defined.

End TypedAddresses.
